(** * MQTT connection synchronisation: the connection store and its managers

    A shallow embedding of
      - [src/db/schema.sql] and the statements of [src/db/queries.sql],
        together with their generated TypeScript wrappers
        ([db/generated/queries_sql]),
      - the HTTP manager [src/mqttConnectionManager/mqttConnectionManager.ts]
        ([getConnections], [postConnection], [deleteConnection]) and its
        middleware ([extractToken], [checkSpaceId], [checkAuth]),
      - the provisioning manager [src/mqtt/mqttConnectionManager.ts]
        ([executeSchema], [createMqttConnection], [deleteMqttConnection]),
      - its caller [src/Connections/MqttConnection.ts] ([validateState],
        [provisionConnection], [createConnectionForState], [onRemove]),
      - the bootstrap route [src/mqtt/Router.ts] ([checkAuth],
        [getLiveConnections]).

    The [connections] table is a list of rows in heap order.  The handlers
    are [async] functions: they are written as programs of a small free
    monad whose nodes are the awaited effects (a store statement or an
    axios call), so that the same program text can be run to completion
    against a store, or stepped await by await next to another handler. *)

From stdpp Require Import base decidable option list strings pretty gmap.
From Stdlib Require Import ZArith.

#[local] Set Warnings "-clear-no-such-hyp".

Local Open Scope string_scope.
Local Open Scope list_scope.
Local Open Scope Z_scope.

(** ** The persisted schema *)

Module Db.

(** [schema.sql]: one row of [connections].  The column [created_at]
    (DEFAULT current_timestamp) is kept as the timestamp the store assigned
    at insertion. *)
Record Row := mkRow {
  broker : string;
  client_id : string;
  username : string;
  password : string;
  space_ids : list string;
  created_at : Z
}.

#[global] Instance Row_eq_dec : EqDecision Row.
Proof. solve_decision. Defined.

Abbreviation Table := (list Row).

(** [WHERE broker = $1 AND username = $2]: the primary key of the table. *)
Definition has_key (b u : string) (r : Row) : Prop :=
  broker r = b ∧ username r = u.

#[global] Instance has_key_dec b u r : Decision (has_key b u r).
Proof. unfold has_key. apply _. Defined.

Definition key_of (r : Row) : string * string := (broker r, username r).

(** PRIMARY KEY (broker, username). *)
Definition pk_unique (t : Table) : Prop := NoDup (key_of <$> t).

Definition set_space_ids (ids : list string) (r : Row) : Row :=
  mkRow (broker r) (client_id r) (username r) (password r) ids (created_at r).

(** *** SQL expressions used by the statements *)

(** [ARRAY_REMOVE(a, x)]: every element equal to [x] is removed. *)
Definition array_remove (a : list string) (x : string) : list string :=
  filter (λ y, y ≠ x) a.

(** [ARRAY_LENGTH(a, 1)]: the length of the first dimension; PostgreSQL
    yields NULL, not 0, for an array without elements. *)
Definition array_length (a : list string) : option Z :=
  match a with
  | [] => None
  | _ => Some (Z.of_nat (length a))
  end.

(** [x = y] under SQL's three-valued logic: NULL when an operand is NULL. *)
Definition sql_eq (x y : option Z) : option bool :=
  match x, y with
  | Some a, Some b => Some (bool_decide (a = b))
  | _, _ => None
  end.

(** A WHERE clause keeps a row only when its condition is true (neither
    false nor NULL). *)
Definition where_holds (c : option bool) : bool :=
  match c with
  | Some true => true
  | _ => false
  end.

(** [a @> b]: every element of [b] occurs in [a]. *)
Definition array_contains (a b : list string) : Prop :=
  Forall (λ x, x ∈ a) b.

#[global] Instance array_contains_dec a b : Decision (array_contains a b).
Proof. unfold array_contains. apply _. Defined.

(** *** Statements *)

(** SelectAllConnections. *)
Definition SelectAllConnections (t : Table) : list Row := t.

(** SelectSpaceConnections: [WHERE space_ids @> $1]. *)
Definition SelectSpaceConnections (t : Table) (ids : list string) : list Row :=
  filter (λ r, array_contains (space_ids r) ids) t.

(** SelectConnection: [WHERE broker = $1 AND username = $2]. *)
Definition SelectConnection (t : Table) (b u : string) : list Row :=
  filter (has_key b u) t.

(** InsertConnection as generated ([insertConnectionQuery]):
    [ON CONFLICT (broker, username) DO NOTHING RETURNING broker, username].
    The new row goes to the end of the heap; on a conflict nothing is
    written and no row is returned. *)
Definition InsertConnection (now : Z) (t : Table)
    (b cid u pw : string) (ids : list string) : list (string * string) * Table :=
  if decide (Exists (has_key b u) t) then ([], t)
  else ([(b, u)], t ++ [mkRow b cid u pw ids now]).

(** InsertConnection as written in [queries.sql]:
    [ON CONFLICT (broker, username) DO UPDATE
     SET (client_id, password, space_ids) = ($2, $4, $5)]. *)
Definition InsertConnection_sql (now : Z) (t : Table)
    (b cid u pw : string) (ids : list string) : list (string * string) * Table :=
  if decide (Exists (has_key b u) t) then
    ([(b, u)],
     (λ r, if decide (has_key b u r)
           then mkRow (broker r) cid (username r) pw ids (created_at r)
           else r) <$> t)
  else ([(b, u)], t ++ [mkRow b cid u pw ids now]).

(** UpdateConnectionAssociatedSpaces:
    [SET space_ids = $1 WHERE broker = $2 AND username = $3
     RETURNING broker, username]. *)
Definition UpdateConnectionAssociatedSpaces (t : Table)
    (ids : list string) (b u : string) : list (string * string) * Table :=
  (key_of <$> filter (has_key b u) t,
   (λ r, if decide (has_key b u r) then set_space_ids ids r else r) <$> t).

(** The condition of the pruning DELETE, [ARRAY_LENGTH(space_ids, 1) = 0]. *)
Definition prune_where (r : Row) : bool :=
  where_holds (sql_eq (array_length (space_ids r)) (Some 0)).

(** DeleteSpaceFromConnectionAndPrune:
    [WITH updated AS (UPDATE connections
                      SET space_ids = ARRAY_REMOVE(space_ids, $1)
                      WHERE broker = $2 AND username = $3)
     DELETE FROM connections WHERE ARRAY_LENGTH(space_ids, 1) = 0].
    The UPDATE of the WITH clause and the DELETE run on the same snapshot,
    the table as it was before the statement: the DELETE evaluates its
    condition on the rows as they were, not as the UPDATE leaves them.  A
    row kept by the DELETE carries the UPDATE's effect. *)
Definition DeleteSpaceFromConnectionAndPrune (t : Table)
    (x b u : string) : Table :=
  (λ r, if decide (has_key b u r)
        then set_space_ids (array_remove (space_ids r) x) r
        else r)
  <$> filter (λ r, prune_where r = false) t.

End Db.

(** ** Awaited effects and asynchronous programs *)

Module Async.
Import Db.

(** *** Calls to the orchestrator (MQTTAS) *)

Inductive Method := POST | PUT | DELETE.

#[global] Instance Method_eq_dec : EqDecision Method.
Proof. solve_decision. Defined.

(** The [connection] object of a request body.  A field that the handler
    does not put in the object literal is absent from the JSON sent. *)
Record ConnectionPayload := mkPayload {
  p_broker : string;
  p_username : string;
  p_client_id : option string;
  p_password : option string
}.

#[global] Instance ConnectionPayload_eq_dec : EqDecision ConnectionPayload.
Proof. solve_decision. Defined.

(** One axios call: method, URL with its query string, the [connection]
    payload if the call has a body, and the bearer token if the call sets
    an Authorization header. *)
Record Request := mkRequest {
  method : Method;
  url : string;
  payload : option ConnectionPayload;
  bearer : option string
}.

#[global] Instance Request_eq_dec : EqDecision Request.
Proof. solve_decision. Defined.

(** What the orchestrator does with a call: it answers with an HTTP status,
    or no answer arrives (connection refused, timeout). *)
Inductive HttpOutcome :=
| Answer (status : Z)
| NoAnswer (message : string).

(** axios' default [validateStatus]: the promise is fulfilled for a 2xx
    status and rejected for any other. *)
Definition validateStatus (status : Z) : bool :=
  bool_decide (200 ≤ status < 300).

(** *** Exceptions *)

(** An axios error carries the response's status when there was a response;
    a store error is any other exception. *)
Inductive Exn :=
| AxiosError (response : option Z) (message : string)
| PgError (message : string).

(** *** Rows returned by the generated wrappers *)

Record SelectConnectionRow := mkSelectConnectionRow {
  sc_broker : string;
  sc_clientId : string;
  sc_username : string;
  sc_spaceIds : list string
}.

Record KeyRow := mkKeyRow { k_broker : string; k_username : string }.

(** [InsertConnectionArgs].  [password] is what JavaScript passes at run
    time: [None] is [undefined], which the driver sends as NULL. *)
Record InsertConnectionArgs := mkInsertConnectionArgs {
  i_broker : string;
  i_clientId : string;
  i_username : string;
  i_password : option string;
  i_spaceIds : list string
}.

(** *** The effects a handler awaits *)

Inductive Effect : Type → Type :=
| selectAllConnections : Effect (list Row)
| selectSpaceConnections (spaceIds : list string) : Effect (list Row)
| selectConnection (broker username : string) : Effect (option SelectConnectionRow)
| insertConnection (args : InsertConnectionArgs) : Effect (option KeyRow)
| updateConnectionAssociatedSpaces (spaceIds : list string) (broker username : string) :
    Effect (option KeyRow)
| deleteSpaceFromConnectionAndPrune (arrayRemove broker username : string) : Effect unit
| axios (req : Request) : Effect Z.

(** A program is a tree of awaits.  The continuation of an await receives
    either the value of the fulfilled promise or the exception of the
    rejected one. *)
Inductive Prog (A : Type) : Type :=
| Ret (a : A)
| Throw (e : Exn)
| Await {X : Type} (e : Effect X) (k : Exn + X → Prog A).

Arguments Ret {A} a.
Arguments Throw {A} e.
Arguments Await {A X} e k.

Fixpoint bind {A B} (p : Prog A) (f : A → Prog B) : Prog B :=
  match p with
  | Ret a => f a
  | Throw e => Throw e
  | Await e k => Await e (λ r, bind (k r) f)
  end.

(** [try { p } catch (err) { h err }]. *)
Fixpoint try_catch {A} (p : Prog A) (h : Exn → Prog A) : Prog A :=
  match p with
  | Ret a => Ret a
  | Throw e => h e
  | Await e k => Await e (λ r, try_catch (k r) h)
  end.

(** [await e]: the value, or the exception thrown at the await. *)
Definition await {X} (e : Effect X) : Prog X :=
  Await e (λ r, match r with inl ex => Throw ex | inr x => Ret x end).

#[global] Instance Prog_ret : MRet Prog := @Ret.
#[global] Instance Prog_bind : MBind Prog := λ A B f p, bind p f.

(** *** The world the effects act on *)

(** The store, and the orchestrator calls made so far, oldest first. *)
Record World := mkWorld {
  db : Table;
  calls : list Request
}.

(** The environment of a run: how the orchestrator answers a call, given
    the calls it has already received, and the store's clock. *)
Record Env := mkEnv {
  orch : list Request → Request → HttpOutcome;
  now : Z
}.

(** The generated wrappers return [null] unless exactly one row came back. *)
Definition one_row {A B} (f : A → B) (rows : list A) : option B :=
  match rows with
  | [r] => Some (f r)
  | _ => None
  end.

Definition key_row (k : string * string) : KeyRow := mkKeyRow k.1 k.2.

Definition select_row (r : Row) : SelectConnectionRow :=
  mkSelectConnectionRow (broker r) (client_id r) (username r) (space_ids r).

(** One awaited effect, executed atomically on the world. *)
Definition handle (E : Env) {X} (e : Effect X) (w : World) : (Exn + X) * World :=
  match e in Effect X return (Exn + X) * World with
  | selectAllConnections => (inr (SelectAllConnections (db w)), w)
  | selectSpaceConnections ids => (inr (SelectSpaceConnections (db w) ids), w)
  | selectConnection b u =>
      (inr (one_row select_row (SelectConnection (db w) b u)), w)
  | insertConnection a =>
      match i_password a with
      | None =>
          (* password TEXT NOT NULL *)
          (inl (PgError "null value in column password violates not-null constraint"), w)
      | Some pw =>
          let '(rows, t) :=
            InsertConnection (now E) (db w)
              (i_broker a) (i_clientId a) (i_username a) pw (i_spaceIds a) in
          (inr (one_row key_row rows), mkWorld t (calls w))
      end
  | updateConnectionAssociatedSpaces ids b u =>
      let '(rows, t) := UpdateConnectionAssociatedSpaces (db w) ids b u in
      (inr (one_row key_row rows), mkWorld t (calls w))
  | deleteSpaceFromConnectionAndPrune x b u =>
      (inr (), mkWorld (DeleteSpaceFromConnectionAndPrune (db w) x b u) (calls w))
  | axios req =>
      (match orch E (calls w) req with
       | Answer st =>
           if validateStatus st then inr st
           else inl (AxiosError (Some st)
                       ("Request failed with status code " +:+ pretty st))
       | NoAnswer msg => inl (AxiosError None msg)
       end,
       mkWorld (db w) (calls w ++ [req]))
  end.

(** Running a program to completion with nothing else touching the world. *)
Fixpoint run (E : Env) {A} (p : Prog A) (w : World) : (Exn + A) * World :=
  match p with
  | Ret a => (inr a, w)
  | Throw e => (inl e, w)
  | Await e k => let '(r, w') := handle E e w in run E (k r) w'
  end.

(** One await of a program, for interleaved runs: the head effect is
    executed and the program resumes in its continuation. *)
Definition step (E : Env) {A} (p : Prog A) (w : World) : Prog A * World :=
  match p with
  | Await e k => let '(r, w') := handle E e w in (k r, w')
  | _ => (p, w)
  end.

(** Two handlers in flight on the same world.  The schedule says which of
    them the event loop resumes next ([false]: the first, [true]: the
    second); a finished handler ignores its turns. *)
Fixpoint interleave (E : Env) {A B} (sched : list bool)
    (p : Prog A) (q : Prog B) (w : World) : Prog A * Prog B * World :=
  match sched with
  | [] => (p, q, w)
  | false :: sched' => let '(p', w') := step E p w in interleave E sched' p' q w'
  | true :: sched' => let '(q', w') := step E q w in interleave E sched' p q' w'
  end.

Definition finished {A} (p : Prog A) : option (Exn + A) :=
  match p with
  | Ret a => Some (inr a)
  | Throw e => Some (inl e)
  | Await _ _ => None
  end.

End Async.

(** ** What the handlers receive and answer *)

Module Api.

(** [MqttConnection] of [mqttConnectionManager/api.ts], and
    [MqttConnectionState] of [Connections/MqttConnection.ts], which has the
    same fields. *)
Record MqttConnection := mkMqttConnection {
  broker : string;
  clientId : string;
  username : string;
  password : option string;
  spacesIds : option (list string)
}.

(** [AdaptedMqttLiveConnection] of [mqtt/Router.ts]. *)
Record AdaptedMqttLiveConnection := mkLive {
  l_broker : string;
  l_client_id : string;
  l_username : string;
  l_password : string;
  l_spaces_ids : list string
}.

Inductive Body :=
| NoBody
| OkTrue
| ErrorMsg (error : string)
| MqttClients (mqttClients : list MqttConnection)
| LiveConnections (l : list AdaptedMqttLiveConnection).

(** [res.status(s).send(b)] of the HTTP manager, and the object
    [{ status, ok }] or [{ status, error }] the provisioning manager returns. *)
Record Response := mkResponse {
  status : Z;
  body : Body
}.

(** JavaScript truthiness of a string, and of a possibly undefined one. *)
Definition truthy (s : string) : bool := bool_decide (s ≠ "").

Definition truthy_opt (s : option string) : bool :=
  match s with
  | Some s => truthy s
  | None => false
  end.

End Api.

(** ** mqttConnectionManager/mqttConnectionManager.ts *)

Module Http.
Import Db Async Api.

(** The [catch] block shared by [postConnection] and [deleteConnection]. *)
Definition on_error (err : Exn) : Prog Response :=
  match err with
  | AxiosError (Some st) msg => Ret (mkResponse st (ErrorMsg msg))
  | _ => Ret (mkResponse 500 (ErrorMsg "An error occurred"))
  end.

Definition getConnections (spaceId : string) : Prog Response :=
  try_catch
    (connections ← await (selectSpaceConnections [spaceId]);
     if bool_decide (length connections = 0%nat) then
       Ret (mkResponse 200 NoBody)
     else
       Ret (mkResponse 200
              (MqttClients
                 ((λ conn, mkMqttConnection (Db.broker conn) (Db.client_id conn)
                             (Db.username conn) None None) <$> connections))))
    (λ _, Ret (mkResponse 500
                 (ErrorMsg ("connections: unable to fetch connections for space: "
                            +:+ spaceId)))).

Definition postConnection (mqttasAddress spaceId : string)
    (mqttConnection : option MqttConnection) : Prog Response :=
  match mqttConnection with
  | None => Ret (mkResponse 400 (ErrorMsg "missing values in request payload"))
  | Some c =>
    if negb (truthy (broker c)) || negb (truthy (username c))
       || negb (truthy (clientId c)) || negb (truthy_opt (password c))
    then Ret (mkResponse 400 (ErrorMsg "missing values in request payload"))
    else
      let broker := broker c in
      let username := username c in
      let clientId := clientId c in
      let password := password c in
      try_catch
        (connection ← await (selectConnection broker username);
         match connection with
         | None =>
             status ← await (axios
               (mkRequest POST (mqttasAddress +:+ "/connection?space_id=" +:+ spaceId)
                  (Some (mkPayload broker username (Some clientId) password)) None));
             if bool_decide (status ≠ 200) then
               Ret (mkResponse 404
                      (ErrorMsg "failed to connect to broker with provided credentials"))
             else
               _ ← await (insertConnection
                  (mkInsertConnectionArgs broker clientId username password [spaceId]));
               Ret (mkResponse 200 OkTrue)
         | Some connection =>
             if bool_decide (spaceId ∈ sc_spaceIds connection) then
               Ret (mkResponse 200 OkTrue)
             else
               let updatedSpaceIds := sc_spaceIds connection ++ [spaceId] in
               status ← await (axios
                 (mkRequest PUT (mqttasAddress +:+ "/connection?space_id=" +:+ spaceId)
                    (Some (mkPayload broker username None None)) None));
               if bool_decide (status ≠ 200) then
                 Ret (mkResponse 404
                        (ErrorMsg "failed to connect to broker with provided credentials"))
               else
                 _ ← await (updateConnectionAssociatedSpaces updatedSpaceIds broker username);
                 Ret (mkResponse 200 OkTrue)
         end)
        on_error
  end.

Definition deleteConnection (mqttasAddress spaceId username broker : string) :
    Prog Response :=
  try_catch
    (if negb (truthy username) || negb (truthy broker) then
       Ret (mkResponse 400 (ErrorMsg "mqtt username and broker must be provided"))
     else
       connection ← await (selectConnection broker username);
       match connection with
       | None =>
           Ret (mkResponse 404
                  (ErrorMsg ("connection " +:+ username +:+ "@" +:+ broker +:+ " not found")))
       | Some connection =>
           if negb (bool_decide (spaceId ∈ sc_spaceIds connection)) then
             Ret (mkResponse 404
                    (ErrorMsg ("connection " +:+ username +:+ "@" +:+ broker
                               +:+ " not associated with space " +:+ spaceId)))
           else
             status ← await (axios
               (mkRequest DELETE
                  (mqttasAddress +:+ "/connection?space_id=" +:+ spaceId
                   +:+ "&username=" +:+ username +:+ "&broker=" +:+ broker)
                  None None));
             if bool_decide (status ≠ 200) then
               Ret (mkResponse 404
                      (ErrorMsg ("failed to delete connection " +:+ username
                                 +:+ "@" +:+ broker)))
             else
               _ ← await (deleteSpaceFromConnectionAndPrune spaceId broker username);
               Ret (mkResponse 200 OkTrue)
       end)
    on_error.

End Http.

(** ** mqtt/mqttConnectionManager.ts *)

Module Provisioner.
Import Db Async Api.

Definition on_error (err : Exn) : Prog Response :=
  match err with
  | AxiosError (Some st) msg => Ret (mkResponse st (ErrorMsg msg))
  | _ => Ret (mkResponse 500 (ErrorMsg "An error occurred"))
  end.


Definition createMqttConnection (mqttasAddress : string)
    (mqttConnection : MqttConnection) (accessToken spaceId : string) : Prog Response :=
  let broker := broker mqttConnection in
  let username := username mqttConnection in
  let clientId := clientId mqttConnection in
  let password := password mqttConnection in
  try_catch
    (connection ← await (selectConnection broker username);
     let create : Prog Response :=
       status ← await (axios
         (mkRequest POST (mqttasAddress +:+ "/connection?space_id=" +:+ spaceId)
            (Some (mkPayload broker username (Some clientId) password))
            (Some accessToken)));
       if bool_decide (status ≠ 200) then
         Ret (mkResponse 404
                (ErrorMsg "failed to connect to broker with provided credentials"))
       else
         _ ← await (insertConnection
            (mkInsertConnectionArgs broker clientId username password [spaceId]));
         Ret (mkResponse 200 OkTrue) in
     match connection with
     | None => create
     | Some connection =>
         if bool_decide (length (sc_spaceIds connection) = 0%nat) then create
         else if bool_decide (spaceId ∈ sc_spaceIds connection) then
           Ret (mkResponse 200 OkTrue)
         else
           let updatedSpaceIds := sc_spaceIds connection ++ [spaceId] in
           status ← await (axios
             (mkRequest PUT (mqttasAddress +:+ "/connection?space_id=" +:+ spaceId)
                (Some (mkPayload broker username None None))
                (Some accessToken)));
           if bool_decide (status ≠ 200) then
             Ret (mkResponse 404
                    (ErrorMsg "failed to connect to broker with provided credentials"))
           else
             _ ← await (updateConnectionAssociatedSpaces updatedSpaceIds broker username);
             Ret (mkResponse 200 OkTrue)
     end)
    on_error.

Definition deleteMqttConnection (mqttasAddress : string)
    (mqttConnection : MqttConnection) (accessToken spaceId : string) : Prog Response :=
  let username := username mqttConnection in
  let broker := broker mqttConnection in
  try_catch
    (if negb (truthy username) || negb (truthy broker) then
       Ret (mkResponse 400 (ErrorMsg "this.mqtt username and broker must be provided"))
     else
       connection ← await (selectConnection broker username);
       match connection with
       | None =>
           Ret (mkResponse 404
                  (ErrorMsg ("connection " +:+ username +:+ "@" +:+ broker +:+ " not found")))
       | Some connection =>
           if negb (bool_decide (spaceId ∈ sc_spaceIds connection)) then
             Ret (mkResponse 404
                    (ErrorMsg ("connection " +:+ username +:+ "@" +:+ broker
                               +:+ " not associated with space " +:+ spaceId)))
           else
             status ← await (axios
               (mkRequest DELETE
                  (mqttasAddress +:+ "/connection?space_id=" +:+ spaceId
                   +:+ "&username=" +:+ username +:+ "&broker=" +:+ broker)
                  None (Some accessToken)));
             if bool_decide (status ≠ 200) then
               Ret (mkResponse 404
                      (ErrorMsg ("failed to delete connection " +:+ username
                                 +:+ "@" +:+ broker)))
             else
               _ ← await (deleteSpaceFromConnectionAndPrune spaceId broker username);
               Ret (mkResponse 200 OkTrue)
       end)
    on_error.

End Provisioner.

(** ** mqtt/Router.ts *)

Module Router.
Import Db Async Api.

Definition getLiveConnections : Prog Response :=
  try_catch
    (connections ← await selectAllConnections;
     Ret (mkResponse 200
            (LiveConnections
               ((λ conn, mkLive (Db.broker conn) (Db.client_id conn) (Db.username conn)
                           (Db.password conn) (Db.space_ids conn)) <$> connections))))
    (λ err, Ret (mkResponse 500
                   (ErrorMsg ("unable to fetch connections: "
                              +:+ match err with
                                  | AxiosError _ m => m
                                  | PgError m => m
                                  end)))).

End Router.

(** ** The manager operations as one family, and what the claims speak of *)

Module Sync.
Import Db Async Api.

(** An attach or detach request, to either manager. *)
Inductive Operation :=
| HttpPost (spaceId : string) (mqttConnection : option MqttConnection)
| HttpDelete (spaceId username broker : string)
| ProvCreate (mqttConnection : MqttConnection) (accessToken spaceId : string)
| ProvDelete (mqttConnection : MqttConnection) (accessToken spaceId : string).

Definition program (mqttasAddress : string) (o : Operation) : Prog Response :=
  match o with
  | HttpPost s c => Http.postConnection mqttasAddress s c
  | HttpDelete s u b => Http.deleteConnection mqttasAddress s u b
  | ProvCreate c tok s => Provisioner.createMqttConnection mqttasAddress c tok s
  | ProvDelete c tok s => Provisioner.deleteMqttConnection mqttasAddress c tok s
  end.

(** Operations run one after the other, each to completion. *)
Fixpoint run_all (E : Env) (mqttasAddress : string) (ops : list Operation)
    (w : World) : list (Exn + Response) * World :=
  match ops with
  | [] => ([], w)
  | o :: ops' =>
      let '(r, w') := run E (program mqttasAddress o) w in
      let '(rs, w'') := run_all E mqttasAddress ops' w' in
      (r :: rs, w'')
  end.

(** The operation reported success: [200] with [{ ok: true }]. *)
Definition success (r : Exn + Response) : Prop :=
  r = inr (mkResponse 200 OkTrue).

(** The operation reported a failure: an error body and a status other
    than 200. *)
Definition failure (r : Exn + Response) : Prop :=
  ∃ st msg, r = inr (mkResponse st (ErrorMsg msg)) ∧ st ≠ 200.

(** The orchestrator call failed: a status other than 200, or no answer. *)
Definition orch_fails (o : HttpOutcome) : Prop :=
  match o with
  | Answer st => st ≠ 200
  | NoAnswer _ => True
  end.

(** The request passes the presence checks of [postConnection]. *)
Definition present (c : MqttConnection) : Prop :=
  broker c ≠ "" ∧ username c ≠ "" ∧ clientId c ≠ ""
  ∧ ∃ p, password c = Some p ∧ p ≠ "".

(** The spaces stored for an identity, as a set; no row is the empty set. *)
Definition stored_spaces (t : Table) (b u : string) : gset string :=
  match SelectConnection t b u with
  | [r] => list_to_set (space_ids r)
  | _ => ∅
  end.

(** The identity and space an operation attaches, or detaches. *)
Definition attaches (o : Operation) : option (string * string * string) :=
  match o with
  | HttpPost s (Some c) => Some (broker c, username c, s)
  | ProvCreate c _ s => Some (broker c, username c, s)
  | _ => None
  end.

Definition detaches (o : Operation) : option (string * string * string) :=
  match o with
  | HttpDelete s u b => Some (b, u, s)
  | ProvDelete c _ s => Some (broker c, username c, s)
  | _ => None
  end.

(** The two not-found answers of a detach: the identity has no row, or
    the row is not associated with the space. *)
Definition not_found_connection (u b : string) : Response :=
  mkResponse 404
    (ErrorMsg ("connection " +:+ u +:+ "@" +:+ b +:+ " not found")).

Definition not_found_association (u b s : string) : Response :=
  mkResponse 404
    (ErrorMsg ("connection " +:+ u +:+ "@" +:+ b
               +:+ " not associated with space " +:+ s)).

(** Two rows that agree on every column except [space_ids]. *)
Definition same_but_spaces (r r' : Row) : Prop :=
  Db.broker r = Db.broker r' ∧ client_id r = client_id r'
  ∧ Db.username r = Db.username r' ∧ Db.password r = Db.password r'
  ∧ created_at r = created_at r'.

(** Two rows that agree on every column except [password]. *)
Definition same_but_password (r r' : Row) : Prop :=
  Db.broker r = Db.broker r' ∧ client_id r = client_id r'
  ∧ Db.username r = Db.username r' ∧ space_ids r = space_ids r'
  ∧ created_at r = created_at r'.

(** The entry of a [GET /mqtt/connections] answer built from a row. *)
Definition obfuscated (conn : Row) : MqttConnection :=
  mkMqttConnection (Db.broker conn) (client_id conn) (Db.username conn) None None.

(** The entry of a [GET /liveConnections] answer built from a row. *)
Definition adapted (conn : Row) : AdaptedMqttLiveConnection :=
  mkLive (Db.broker conn) (client_id conn) (Db.username conn)
    (Db.password conn) (space_ids conn).

(** The operations of the HTTP manager. *)
Definition is_http (o : Operation) : Prop :=
  match o with
  | HttpPost _ _ | HttpDelete _ _ _ => True
  | _ => False
  end.

(** The membership algebra in the words of the specification: an attach of
    the identity adds its space to the set, a detach removes it. *)
Definition apply_membership (b u : string) (S : gset string) (o : Operation) :
    gset string :=
  match attaches o, detaches o with
  | Some (b', u', s), _ => if decide (b' = b ∧ u' = u) then S ∪ {[s]} else S
  | None, Some (b', u', s) => if decide (b' = b ∧ u' = u) then S ∖ {[s]} else S
  | None, None => S
  end.

(** "The set of spaceIds attached minus those subsequently detached", from
    an initial set, in the order of the operations. *)
Definition membership (b u : string) (ops : list Operation) (S : gset string) :
    gset string :=
  foldl (apply_membership b u) S ops.

End Sync.

(** ** Concrete requests, stores and schedules used in the examples *)

Module Samples.
Import Db Async Api Sync.

Definition mqttas : string := "http://mqttas".
Definition token : string := "syt_token".

Definition s1 : string := "!s1:example.org".
Definition s2 : string := "!s2:example.org".
Definition s3 : string := "!s3:example.org".

(** The request of scenario 1: broker b1, user u1, client c1, password p1. *)
Definition conn1 : MqttConnection :=
  mkMqttConnection "b1" "c1" "u1" (Some "p1") None.

(** The same identity with another client id and another password. *)
Definition conn1' : MqttConnection :=
  mkMqttConnection "b1" "c9" "u1" (Some "p9") None.

(** The stored row of that identity with the given spaces. *)
Definition row1 (spaces : list string) : Row :=
  mkRow "b1" "c1" "u1" "p1" spaces 0.

(** The same row holding another password. *)
Definition row1' (spaces : list string) : Row :=
  mkRow "b1" "c1" "u1" "p9" spaces 0.

(** An orchestrator that answers 200 to every call, one that answers 500,
    and one that does not answer. *)
Definition always_ok : Env := mkEnv (λ _ _, Answer 200) 0.
Definition always_500 : Env := mkEnv (λ _ _, Answer 500) 0.
Definition unreachable : Env := mkEnv (λ _ _, NoAnswer "connect ECONNREFUSED") 0.

Definition empty_world : World := mkWorld [] [].
Definition world_of (t : Table) : World := mkWorld t [].

Definition post_request (s : string) (c : MqttConnection) (tok : option string) :
    Request :=
  mkRequest POST (mqttas +:+ "/connection?space_id=" +:+ s)
    (Some (mkPayload (broker c) (username c) (Some (clientId c)) (password c))) tok.

Definition put_request (s : string) (c : MqttConnection) (tok : option string) :
    Request :=
  mkRequest PUT (mqttas +:+ "/connection?space_id=" +:+ s)
    (Some (mkPayload (broker c) (username c) None None)) tok.

Definition delete_request (s : string) (c : MqttConnection) (tok : option string) :
    Request :=
  mkRequest DELETE
    (mqttas +:+ "/connection?space_id=" +:+ s
     +:+ "&username=" +:+ username c +:+ "&broker=" +:+ broker c)
    None tok.

(** Two handlers resumed in turn, await by await: both read, then both call
    the orchestrator, then both write. *)
Definition alternate : list bool := [false; true; false; true; false; true].

Definition ok : Response := mkResponse 200 OkTrue.

End Samples.

(** ** Predicates on the table used by the invariants *)

Module Invariants.
Import Db Async Api Sync.

(** No row lists a space twice. *)
Definition spaces_nodup (t : Table) : Prop := Forall (λ r, NoDup (space_ids r)) t.

(** The operation attaches a space to, or detaches one from, the identity. *)
Definition touches (o : Operation) (b u : string) : Prop :=
  (∃ s, attaches o = Some (b, u, s)) ∨ (∃ s, detaches o = Some (b, u, s)).

(** The access token an operation is given: the provisioning manager is
    called with the token of the intent, the handlers of the HTTP manager
    with none. *)
Definition token_of (o : Operation) : option string :=
  match o with
  | ProvCreate _ tok _ | ProvDelete _ tok _ => Some tok
  | HttpPost _ _ | HttpDelete _ _ _ => None
  end.

End Invariants.

(** ** The middleware of mqttConnectionManager/mqttConnectionManager.ts *)

Module Middleware.
Import Stdlib.Strings.Ascii.

(** Strings are sequences of code units below 256; the separator and the
    characters the regular expression names are ASCII. *)
Definition space : ascii := " "%char.

(** [s.split(' ')]: the pieces of [s] between its spaces; a string without
    a space is its only piece. *)
Fixpoint split_space (s : string) : list string :=
  match s with
  | EmptyString => [""]
  | String c s' =>
      if decide (c = space) then "" :: split_space s'
      else match split_space s' with
           | p :: ps => String c p :: ps
           | [] => [String c ""]
           end
  end.

(** The pieces joined again by single spaces, the inverse of the split. *)
Fixpoint join_space (parts : list string) : string :=
  match parts with
  | [] => ""
  | [p] => p
  | p :: ps => p +:+ String space (join_space ps)
  end.

(** [extractToken(authHeader)]; [inl] is the message of the thrown Error. *)
Definition extractToken (authHeader : option string) : string + string :=
  match authHeader with
  | None => inl "No Authorization Header"
  | Some h =>
      if decide (h = "") then inl "No Authorization Header"
      else
        let parts := split_space h in
        if bool_decide (length parts ≠ 2%nat)
           || bool_decide (parts !! 0%nat ≠ Some "Bearer")
        then inl "Invalid Authorization Header"
        else inr (default "" (parts !! 1%nat))
  end.

(** *** Regular expressions *)

(** The fragment of JavaScript regular expressions the validator uses
    (a character, [.], sequence, [+]), closed under what matching by
    derivatives needs. *)
Inductive Regex :=
| Fail                      (* matches nothing *)
| Eps                       (* the empty string *)
| Chr (c : ascii)           (* the character c *)
| Dot                       (* [.]: any character but a line terminator *)
| Any                       (* any character *)
| Seq (r1 r2 : Regex)
| Alt (r1 r2 : Regex)
| Star (r : Regex).

(** [r+] *)
Definition Plus (r : Regex) : Regex := Seq r (Star r).

(** The line terminators among the code units below 256: LF and CR. *)
Definition line_terminator (c : ascii) : bool :=
  bool_decide (c = "010"%char) || bool_decide (c = "013"%char).

Fixpoint nullable (r : Regex) : bool :=
  match r with
  | Fail | Chr _ | Dot | Any => false
  | Eps | Star _ => true
  | Seq r1 r2 => nullable r1 && nullable r2
  | Alt r1 r2 => nullable r1 || nullable r2
  end.

(** The derivative of [r] by the character [c]. *)
Fixpoint deriv (c : ascii) (r : Regex) : Regex :=
  match r with
  | Fail | Eps => Fail
  | Chr c' => if decide (c = c') then Eps else Fail
  | Dot => if line_terminator c then Fail else Eps
  | Any => Eps
  | Seq r1 r2 =>
      if nullable r1 then Alt (Seq (deriv c r1) r2) (deriv c r2)
      else Seq (deriv c r1) r2
  | Alt r1 r2 => Alt (deriv c r1) (deriv c r2)
  | Star r1 => Seq (deriv c r1) (Star r1)
  end.

(** [r] matches the whole of [s]. *)
Fixpoint matchb (r : Regex) (s : string) : bool :=
  match s with
  | EmptyString => nullable r
  | String c s' => matchb (deriv c r) s'
  end.

(** [r.exec(s)] is not null: [r] matches somewhere in [s]. *)
Definition exec (r : Regex) (s : string) : bool :=
  matchb (Seq (Star Any) (Seq r (Star Any))) s.

(** [const ROOM_ID_VALIDATOR = /!.+:.+/]. *)
Definition ROOM_ID_VALIDATOR : Regex :=
  Seq (Chr "!") (Seq (Plus Dot) (Seq (Chr ":") (Plus Dot))).

(** No character of the string is a line terminator. *)
Fixpoint dotted (s : string) : bool :=
  match s with
  | EmptyString => true
  | String c s' => negb (line_terminator c) && dotted s'
  end.

(** The string has no space. *)
Fixpoint spaceless (s : string) : bool :=
  match s with
  | EmptyString => true
  | String c s' => negb (bool_decide (c = space)) && spaceless s'
  end.

(** The matching relation the matcher decides. *)
Inductive matches : Regex → string → Prop :=
| m_eps : matches Eps ""
| m_chr c : matches (Chr c) (String c "")
| m_dot c : line_terminator c = false → matches Dot (String c "")
| m_any c : matches Any (String c "")
| m_seq r1 r2 s1 s2 : matches r1 s1 → matches r2 s2 → matches (Seq r1 r2) (s1 +:+ s2)
| m_alt_l r1 r2 s : matches r1 s → matches (Alt r1 r2) s
| m_alt_r r1 r2 s : matches r2 s → matches (Alt r1 r2) s
| m_star_nil r : matches (Star r) ""
| m_star_cons r s1 s2 :
    matches r s1 → matches (Star r) s2 → matches (Star r) (s1 +:+ s2).

(** A value of [req.query]: a string, or anything else (absent, an array,
    an object), of which only the rendering in a template string is kept. *)
Inductive QueryValue :=
| QString (s : string)
| QOther (rendered : string).

(** [checkSpaceId]: [inl] is the message of the thrown ApiError, [inr] the
    call of [next]. *)
Definition checkSpaceId (space_id : QueryValue) : string + unit :=
  match space_id with
  | QOther _ => inl "Invalid spaceId"
  | QString s =>
      if negb (exec ROOM_ID_VALIDATOR s) then inl "Invalid spaceId"
      else if decide (s = "") then inl "space_id must be provided"
      else inr ()
  end.

(** *** checkAuth *)

(** The content of the [m.room.power_levels] event as far as it is read:
    the [users] object, when the content has one. *)
Record PowerLevels := mkPowerLevels {
  users : option (gmap string Z)
}.

(** The homeserver behind [MatrixClient]: each request is fulfilled with a
    value or rejected with an error, of which the message is kept. *)
Record Homeserver := mkHomeserver {
  getWhoAmI : string → string + string;
  getRoomStateEvent : string → QueryValue → string + option PowerLevels
}.

(** What [checkAuth] ends in: it calls [next]; it answers 401; it throws
    an ApiError itself; or a promise it does not handle is rejected, and it
    neither calls [next] nor answers. *)
Inductive AuthOutcome :=
| Next
| Send401 (error : string)
| ThrowsApiError (message : string)
| Unhandled (message : string).

(** [event["users"]?.[user_id] < 90]: false when there is no [users] object
    or no entry for the user. *)
Definition below_admin (event : PowerLevels) (user_id : string) : bool :=
  match users event with
  | None => false
  | Some m =>
      match m !! user_id with
      | None => false
      | Some level => bool_decide (level < 90)
      end
  end.

Definition space_id_text (space_id : QueryValue) : string :=
  match space_id with
  | QString s => s
  | QOther rendered => rendered
  end.

Definition checkAuth (hs : Homeserver) (authorization : option string)
    (spaceId : QueryValue) : AuthOutcome :=
  match extractToken authorization with
  | inl message => ThrowsApiError message
  | inr token =>
      match getWhoAmI hs token with
      | inl message => Send401 message
      | inr user_id =>
          match getRoomStateEvent hs token spaceId with
          | inl message => Unhandled message
          | inr None =>
              Unhandled ("No power level event found for space: "
                         +:+ space_id_text spaceId)
          | inr (Some event) =>
              if below_admin event user_id then Unhandled "Unauthorized"
              else Next
          end
      end
  end.

End Middleware.

(** ** Connections/MqttConnection.ts *)

Module Connection.
Import Db Async Api.

(** An instance of [MqttConnection]: the room it belongs to, the state it
    keeps, its hook id, the MQTTAS address of its configuration and the
    access token of its intent. *)
Record MqttConnection := mkConnection {
  roomId : string;
  state : Api.MqttConnection;
  hookId : string;
  mqttasAddress : string;
  accessToken : string
}.

(** The value of a key of the request data, or [""] for an absent key:
    both are falsy.  The values are strings, as the casts [as string] of
    [validateState] take them to be. *)
Definition field (data : gmap string string) (key : string) : string :=
  default "" (data !! key).

(** [validateState(state)]; [inl] is the message of the thrown Error. *)
Definition validateState (data : gmap string string) : string + Api.MqttConnection :=
  let broker := field data "broker" in
  let clientId := field data "client_id" in
  let username := field data "username" in
  let password := field data "password" in
  if negb (truthy broker) || negb (truthy clientId)
     || negb (truthy username) || negb (truthy password)
  then inl "Missing values in request payload"
  else inr (mkMqttConnection broker clientId username (Some password) None).

(** [${resp.error}]: the error of the manager's answer, ["undefined"]
    when the answer has none. *)
Definition error_text (b : Body) : string :=
  match b with
  | ErrorMsg e => e
  | _ => "undefined"
  end.

Definition failed_to_provision (resp : Response) : string :=
  "Failed to provision MQTT connection with status " +:+ pretty (status resp)
  +:+ " and error " +:+ error_text (body resp).

(** [provisionConnection(roomId, userId, data, { intent, config })].
    [mqtt] is [config.mqtt], given by its MQTTAS address; [token] is
    [intent.underlyingClient.accessToken]; [uuid] is what [randomUUID()]
    returns.  [inl] is the message of the thrown Error. *)
Definition provisionConnection (roomId : string) (data : gmap string string)
    (token : string) (mqtt : option string) (uuid : string) :
    Prog (string + MqttConnection) :=
  match mqtt with
  | None => Ret (inl "MQTT integration is not enabled")
  | Some address =>
      match validateState data with
      | inl message => Ret (inl message)
      | inr validState =>
          resp ← Provisioner.createMqttConnection address validState token roomId;
          if bool_decide (status resp ≠ 200) then
            Ret (inl (failed_to_provision resp))
          else
            let obfuscatedData :=
              mkMqttConnection (broker validState) (clientId validState)
                (username validState) None None in
            Ret (inr (mkConnection roomId obfuscatedData uuid address token))
      end
  end.


(** [onRemove()]. *)
Definition onRemove (c : MqttConnection) : Prog (string + unit) :=
  resp ← Provisioner.deleteMqttConnection (mqttasAddress c) (state c)
           (accessToken c) (roomId c);
  if bool_decide (status resp ≠ 200) then Ret (inl (failed_to_provision resp))
  else Ret (inr ()).

End Connection.

(** ** The route of mqtt/Router.ts *)

Module LiveRoute.
Import Db Async Api.

(** [checkAuth]: only the provisioning secret passes; [inl] is the message
    of the thrown ApiError. *)
Definition checkAuth (secret : string) (authorization : option string) :
    string + unit :=
  if decide (authorization = Some ("Bearer " +:+ secret)) then inr ()
  else inl "Unauthorized".

(** [getRouter()]: [checkAuth], then [GET /liveConnections]. *)
Definition liveConnections (secret : string) (authorization : option string) :
    Prog (string + Response) :=
  match checkAuth secret authorization with
  | inl message => Ret (inl message)
  | inr _ => resp ← Router.getLiveConnections; Ret (inr resp)
  end.

End LiveRoute.

(** ** Further concrete inputs used in the examples *)

Module MoreSamples.
Import Db Async Api Sync Samples Middleware.

(** The provisioning data of the request of scenario 1. *)
Definition data1 : gmap string string :=
  list_to_map [("broker", "b1"); ("client_id", "c1");
               ("username", "u1"); ("password", "p1")].


Definition admin : string := "@admin:example.org".

(** A homeserver that knows the token's user and whose power levels list
    only another user, and one that lists the user at level 50. *)
Definition hs_unlisted : Homeserver :=
  mkHomeserver (λ _, inr admin)
    (λ _ _, inr (Some (mkPowerLevels (Some {["@other:example.org" := 100]})))).

Definition hs_low : Homeserver :=
  mkHomeserver (λ _, inr admin)
    (λ _ _, inr (Some (mkPowerLevels (Some {[admin := 50]})))).

(** The identity (b2, u2) stored with the space s3. *)
Definition row2 : Row := mkRow "b2" "c2" "u2" "p2" [s3] 0.

Definition secret : string := "provisioning-secret".

End MoreSamples.

(** * Properties *)

Import Db Async Api Sync Samples.

(** ** The store *)

Section Store.
Implicit Types (t : Table) (r : Row) (b u : string).

(** [ARRAY_LENGTH(a, 1)] is never 0: it is NULL for an empty array and at
    least 1 otherwise. *)
Lemma array_length_not_zero (a : list string) : array_length a ≠ Some 0.
Proof. destruct a; cbn; [done|]. intros [=]. Qed.

(** Hence the condition of the pruning DELETE holds for no row. *)
Lemma prune_where_false r : prune_where r = false.
Proof.
  unfold prune_where. destruct (space_ids r) as [|y l]; [done|].
  cbn. rewrite bool_decide_eq_false_2; [done|lia].
Qed.

Lemma prune_deletes_nothing t : filter (λ r, prune_where r = false) t = t.
Proof.
  induction t as [|r t IH]; [done|].
  rewrite filter_cons, decide_True by apply prune_where_false. by rewrite IH.
Qed.

Lemma DeleteSpaceFromConnectionAndPrune_eq t x b u :
  DeleteSpaceFromConnectionAndPrune t x b u
  = (λ r, if decide (has_key b u r)
          then set_space_ids (array_remove (space_ids r) x) r else r) <$> t.
Proof. unfold DeleteSpaceFromConnectionAndPrune. by rewrite prune_deletes_nothing. Qed.

(** The statement keeps every row of the table, whatever it removes from
    their spaces. *)
Lemma DeleteSpaceFromConnectionAndPrune_keeps_rows t x b u :
  key_of <$> DeleteSpaceFromConnectionAndPrune t x b u = key_of <$> t.
Proof.
  rewrite DeleteSpaceFromConnectionAndPrune_eq, <-list_fmap_compose.
  apply list_fmap_ext. intros i r _. cbn. by case_decide.
Qed.

Lemma has_key_key_of b u r : has_key b u r ↔ key_of r = (b, u).
Proof. unfold has_key, key_of. split; [by intros [-> ->]|by intros [= -> ->]]. Qed.

Lemma select_has_key t b u r : r ∈ SelectConnection t b u → has_key b u r ∧ r ∈ t.
Proof. apply list_elem_of_filter. Qed.

Lemma select_absent t b u :
  ¬ Exists (has_key b u) t → SelectConnection t b u = [].
Proof.
  unfold SelectConnection. induction t as [|r t IH]; intros H; [done|].
  rewrite filter_cons. rewrite decide_False.
  - apply IH. intros H'. apply H. by right.
  - intros H'. apply H. by left.
Qed.

(** Under the primary key, the row of an identity is the only one selected. *)
Lemma select_unique t b u r :
  pk_unique t → r ∈ t → has_key b u r → SelectConnection t b u = [r].
Proof.
  unfold pk_unique. induction t as [|x t IH]; intros Hnd Hin Hk.
  - by apply elem_of_nil in Hin.
  - rewrite fmap_cons in Hnd. apply NoDup_cons in Hnd as [Hx Hnd].
    unfold SelectConnection. rewrite filter_cons.
    apply elem_of_cons in Hin as [<-|Hin].
    + rewrite decide_True by done. f_equal. apply select_absent.
      intros (y & Hy & Hky)%Exists_exists. apply Hx.
      apply list_elem_of_fmap. exists y. split; [|done].
      apply has_key_key_of in Hk, Hky. congruence.
    + rewrite decide_False; [by apply IH|].
      intros Hkx. apply Hx. apply list_elem_of_fmap. exists r. split; [|done].
      apply has_key_key_of in Hk, Hkx. congruence.
Qed.

Lemma select_app t1 t2 b u :
  SelectConnection (t1 ++ t2) b u = SelectConnection t1 b u ++ SelectConnection t2 b u.
Proof. apply filter_app. Qed.

Lemma one_row_Some {A B} (f : A → B) l y :
  one_row f l = Some y → ∃ x, l = [x] ∧ y = f x.
Proof. destruct l as [|x [|? ?]]; intros [=]. by exists x. Qed.

Lemma select_none_absent {B} (f : Row → B) t b u :
  pk_unique t → one_row f (SelectConnection t b u) = None →
  ¬ Exists (has_key b u) t.
Proof.
  intros Hpk Hnone (r & Hin & Hk)%Exists_exists.
  by rewrite (select_unique _ _ _ r) in Hnone.
Qed.

Lemma InsertConnection_conflict now t b cid u pw ids :
  Exists (has_key b u) t → InsertConnection now t b cid u pw ids = ([], t).
Proof. intros H. unfold InsertConnection. by rewrite decide_True. Qed.

Lemma InsertConnection_fresh now t b cid u pw ids :
  ¬ Exists (has_key b u) t →
  InsertConnection now t b cid u pw ids = ([(b, u)], t ++ [mkRow b cid u pw ids now]).
Proof. intros H. unfold InsertConnection. by rewrite decide_False. Qed.

Lemma fmap_id_on {A} (g : A → A) (l : list A) :
  (∀ x, x ∈ l → g x = x) → g <$> l = l.
Proof.
  induction l as [|x l IH]; intros H; [done|]. cbn.
  rewrite H by by left. f_equal. apply IH. intros y Hy. apply H. by right.
Qed.

Lemma select_update (f : Row → list string) t b u b' u' :
  SelectConnection
    ((λ r, if decide (has_key b u r) then set_space_ids (f r) r else r) <$> t) b' u'
  = (λ r, if decide (has_key b u r) then set_space_ids (f r) r else r)
    <$> SelectConnection t b' u'.
Proof.
  unfold SelectConnection. induction t as [|r t IH]; [done|].
  rewrite fmap_cons, !filter_cons.
  assert (has_key b' u' (if decide (has_key b u r) then set_space_ids (f r) r else r)
          ↔ has_key b' u' r) as Hk by (by case_decide).
  destruct (decide (has_key b' u' r)) as [Hr|Hr].
  - rewrite decide_True by by apply Hk. by rewrite fmap_cons, IH.
  - rewrite decide_False by (by rewrite Hk). done.
Qed.

End Store.

(** ** The primary key and the stored sets under the statements *)

Section StoredSpaces.
Implicit Types (t : Table) (r : Row) (b u : string).

Lemma pk_unique_update (f : Row → Row) t :
  (∀ r, key_of (f r) = key_of r) → pk_unique t → pk_unique (f <$> t).
Proof.
  intros Hf. unfold pk_unique. rewrite <-list_fmap_compose.
  by rewrite (list_fmap_ext (key_of ∘ f) key_of t) by (intros; apply Hf).
Qed.

Lemma pk_unique_insert t r :
  ¬ Exists (has_key (Db.broker r) (Db.username r)) t →
  pk_unique t → pk_unique (t ++ [r]).
Proof.
  intros Hno Hpk. unfold pk_unique. rewrite fmap_app.
  apply NoDup_app. split_and!; [done| |apply NoDup_singleton].
  intros k (r' & -> & Hin)%list_elem_of_fmap Hk%list_elem_of_singleton.
  apply Hno, Exists_exists. exists r'. split; [done|].
  by apply has_key_key_of.
Qed.

Lemma stored_spaces_update (f : Row → list string) t b u b' u' :
  stored_spaces
    ((λ r, if decide (has_key b u r) then set_space_ids (f r) r else r) <$> t) b' u'
  = if decide (b' = b ∧ u' = u)
    then match SelectConnection t b u with
         | [r] => list_to_set (f r)
         | _ => ∅
         end
    else stored_spaces t b' u'.
Proof.
  unfold stored_spaces. rewrite select_update. case_decide as Hk.
  - destruct Hk as [-> ->].
    destruct (SelectConnection t b u) as [|r [|? ?]] eqn:Hsel; [done| |done].
    cbn. rewrite decide_True; [done|].
    eapply select_has_key. rewrite Hsel. by left.
  - rewrite fmap_id_on; [done|].
    intros r [[Hb Hu] _]%select_has_key. rewrite decide_False; [done|].
    intros [Hb' Hu']. apply Hk. by rewrite <-Hb, <-Hu.
Qed.

Lemma stored_spaces_insert t r b' u' :
  ¬ Exists (has_key (Db.broker r) (Db.username r)) t →
  stored_spaces (t ++ [r]) b' u'
  = if decide (b' = Db.broker r ∧ u' = Db.username r)
    then list_to_set (space_ids r) else stored_spaces t b' u'.
Proof.
  intros Hno. unfold stored_spaces. rewrite select_app.
  unfold SelectConnection at 2. rewrite filter_cons, filter_nil.
  destruct (decide (b' = Db.broker r ∧ u' = Db.username r)) as [[-> ->]|Hk].
  - rewrite select_absent by done. by rewrite decide_True.
  - rewrite decide_False, app_nil_r; [done|].
    intros [Hb Hu]. by apply Hk.
Qed.

Lemma array_remove_set (l : list string) x :
  list_to_set (C:=gset string) (array_remove l x) = list_to_set l ∖ {[x]}.
Proof.
  apply set_eq. intros y. unfold array_remove.
  rewrite elem_of_difference, !elem_of_list_to_set, list_elem_of_filter.
  rewrite elem_of_singleton. tauto.
Qed.

Lemma same_but_spaces_refl t : Forall2 same_but_spaces t t.
Proof.
  apply Forall2_same_length_lookup_2; [done|]. intros i x y ? ?. by simplify_eq.
Qed.

Lemma update_same_but_spaces (f : Row → list string) (P : Row → Prop)
    `{∀ r, Decision (P r)} t :
  Forall2 same_but_spaces t
    ((λ r, if decide (P r) then set_space_ids (f r) r else r) <$> t).
Proof.
  induction t as [|r t IH]; cbn; constructor; [|done].
  by case_decide.
Qed.

Lemma obfuscated_same_but_password t1 t2 s :
  Forall2 same_but_password t1 t2 →
  obfuscated <$> SelectSpaceConnections t1 [s]
  = obfuscated <$> SelectSpaceConnections t2 [s].
Proof.
  unfold SelectSpaceConnections.
  induction 1 as [|r1 r2 t1 t2 (Hb & Hc & Hu & Hs & _) _ IH]; [done|].
  rewrite !filter_cons, <-Hs.
  case_decide; [|done]. rewrite !fmap_cons, IH. f_equal.
  unfold obfuscated. by rewrite Hb, Hc, Hu.
Qed.

End StoredSpaces.

(** ** The interpreter *)

(** [run] commutes with sequencing and with [try]/[catch]. *)
Lemma run_bind E {A B} (p : Prog A) (f : A → Prog B) w :
  run E (bind p f) w
  = match run E p w with
    | (inr a, w') => run E (f a) w'
    | (inl e, w') => (inl e, w')
    end.
Proof.
  revert w. induction p as [a|e|X e k IH]; intros w; cbn; [done..|].
  destruct (handle E e w) as [r w']. apply IH.
Qed.

Lemma run_try_catch E {A} (p : Prog A) (h : Exn → Prog A) w :
  run E (try_catch p h) w
  = match run E p w with
    | (inr a, w') => (inr a, w')
    | (inl e, w') => run E (h e) w'
    end.
Proof.
  revert w. induction p as [a|e|X e k IH]; intros w; cbn; [done..|].
  destruct (handle E e w) as [r w']. apply IH.
Qed.

(** Resuming a handler for one await and then running it to completion is
    a run of the handler. *)
Lemma run_step E {A} (p : Prog A) w :
  run E (step E p w).1 (step E p w).2 = run E p w.
Proof. destruct p as [x|e|X e k]; cbn; [done..|]. by destruct (handle E e w). Qed.

Lemma app_singleton_eq {A} (l : list A) x y : l ++ [x] = l ++ [y] → x = y.
Proof. intros H%app_inv_head. congruence. Qed.

Lemma app_singleton_ne {A} (l : list A) x : l ≠ l ++ [x].
Proof. intros H%(f_equal length). rewrite length_app in H. cbn in H. lia. Qed.

Lemma failure_intro st msg : st ≠ 200 → failure (inr (mkResponse st (ErrorMsg msg))).
Proof. intros H. by exists st, msg. Qed.

Lemma rejected_status st : validateStatus st = false → st ≠ 200.
Proof. unfold validateStatus. intros H%bool_decide_eq_false. lia. Qed.

Lemma status_200_accepted : bool_decide (200 ≠ 200) = false.
Proof. done. Qed.

(** Case analysis of a finished run: every test of the handler is decided,
    then the equations between results are solved. *)
Ltac run_cases :=
  repeat (case_match; cbn in * ); do 2 (cbn in *; simplify_eq); cbn in *.

Ltac finish_failed :=
  match goal with
  | H : calls ?w = calls ?w ++ [_] |- _ => by apply app_singleton_ne in H
  | H : calls ?w ++ [_] = calls ?w ++ [_] |- _ =>
      apply app_singleton_eq in H; subst
  end.

Ltac use_answer :=
  repeat match goal with
         | H : orch _ _ _ = _, H' : orch_fails _ |- _ => rewrite H in H'; cbn in H'
         | H : bool_decide _ = false |- _ => apply bool_decide_eq_false in H
         | H : bool_decide _ = true |- _ => apply bool_decide_eq_true in H
         end.

(** The row a handler has read, and the outcome of a membership test. *)
Ltac read_row x Hsel :=
  match goal with
  | H : one_row select_row _ = Some _ |- _ =>
      apply one_row_Some in H as (x & Hsel & ->)
  end.

Ltac decided Hs :=
  match goal with
  | H : bool_decide (_ ∈ _) = true |- _ => apply bool_decide_eq_true in H; rename H into Hs
  | H : bool_decide (_ ∈ _) = false |- _ => apply bool_decide_eq_false in H; rename H into Hs
  end.

Ltac cbn_run := cbn -[stored_spaces InsertConnection SelectConnection].

Ltac answered_200 H :=
  rewrite H; change (validateStatus 200) with true;
  cbn_run; rewrite ?status_200_accepted; cbn_run.

Ltac unfold_program H :=
  unfold Http.postConnection, Http.deleteConnection,
    Provisioner.createMqttConnection, Provisioner.deleteMqttConnection in H;
  cbn in H.

(** ** Pruning *)

(** No detach deletes a row: whatever the request and the orchestrator's
    answer, the table has the same identities afterwards. *)
Lemma detach_keeps_every_row E a o w :
  is_Some (detaches o) →
  key_of <$> db (run E (program a o) w).2 = key_of <$> db w.
Proof.
  intros [k Hk]. destruct (run E (program a o) w) as [r w'] eqn:Hrun. cbn.
  destruct o as [s [c|]|s u b|c tok s|c tok s]; cbn in Hk; simplify_eq;
    cbn in Hrun; unfold_program Hrun; run_cases; try done;
    rewrite prune_deletes_nothing, <-list_fmap_compose;
    apply list_fmap_ext; intros i r0 _; cbn;
    by destruct (decide (has_key _ _ r0)).
Qed.

(** C1 (the code departs from the claim).  The identity (b1, u1) is stored
    with the single space s1 and the orchestrator answers 200 to the
    disassociation.  Either manager's detach of s1 reports success and
    leaves the row in the table with an empty [space_ids]; the row is not
    deleted, and a later [selectConnection] for (b1, u1) returns it. *)
Theorem detach_of_last_space_keeps_the_row :
  run always_ok (Provisioner.deleteMqttConnection mqttas conn1 token s1)
      (world_of [row1 [s1]])
  = (inr ok, mkWorld [row1 []] [delete_request s1 conn1 (Some token)])
  ∧ run always_ok (Http.deleteConnection mqttas s1 "u1" "b1") (world_of [row1 [s1]])
    = (inr ok, mkWorld [row1 []] [delete_request s1 conn1 None])
  ∧ run always_ok (await (selectConnection "b1" "u1")) (world_of [row1 []])
    = (inr (Some (mkSelectConnectionRow "b1" "c1" "u1" [])), world_of [row1 []]).
Proof. split_and!; reflexivity. Qed.

(** ** The membership algebra *)

(** One successful operation of the HTTP manager keeps the primary key and
    changes the stored set of every identity as the algebra says. *)
Lemma http_step_membership E a o w r w' :
  is_http o → pk_unique (db w) →
  run E (program a o) w = (r, w') → success r →
  pk_unique (db w')
  ∧ ∀ b u, stored_spaces (db w') b u
           = apply_membership b u (stored_spaces (db w) b u) o.
Proof.
  intros Ho Hpk Hrun Hr. unfold success in Hr. subst r.
  destruct o as [s [c|]|s u b|c tok s|c tok s]; try done; cbn in Hrun;
    unfold_program Hrun; run_cases.
  - (* already associated: nothing is written *)
    split; [done|]. intros b u.
    destruct (decide (broker c = b ∧ username c = u)) as [[<- <-]|Hk]; [|done].
    read_row x Hsel. decided Hs.
    unfold stored_spaces. rewrite Hsel. cbn in Hs. set_solver.
  - (* associate: the list read, with the space appended, is written *)
    read_row x Hsel. decided Hs.
    split; [apply pk_unique_update;
            [intros r0; by destruct (decide (has_key _ _ r0))|done]|].
    intros b u. rewrite (stored_spaces_update (λ _, space_ids x ++ [s])).
    destruct (decide (broker c = b ∧ username c = u)) as [[<- <-]|Hk].
    + rewrite decide_True by done. unfold stored_spaces. rewrite Hsel.
      rewrite list_to_set_app_L. cbn. set_solver.
    + rewrite decide_False; [done|]. intros [-> ->]. by apply Hk.
  - (* create: a row with the single space is inserted *)
    match goal with
    | H : one_row _ _ = None |- _ => apply select_none_absent in H; [|done]
    end.
    destruct (password c) as [p|] eqn:Hp; cbn in *; [|done].
    match goal with
    | H : InsertConnection _ _ _ _ _ _ _ = _ |- _ =>
        rewrite InsertConnection_fresh in H by done; simplify_eq
    end.
    split; [by apply pk_unique_insert|].
    intros b u. rewrite stored_spaces_insert by done. cbn.
    destruct (decide (broker c = b ∧ username c = u)) as [[<- <-]|Hk].
    + rewrite decide_True by done. unfold stored_spaces.
      rewrite select_absent by done. set_solver.
    + rewrite decide_False; [done|]. intros [-> ->]. by apply Hk.
  - (* detach: the space is removed from the row, which stays *)
    rewrite prune_deletes_nothing.
    split; [apply pk_unique_update;
            [intros r0; by destruct (decide (has_key _ _ r0))|done]|].
    intros b0 u0.
    rewrite (stored_spaces_update (λ r, array_remove (space_ids r) s)).
    destruct (decide (b = b0 ∧ u = u0)) as [[<- <-]|Hk].
    + rewrite decide_True by done. unfold stored_spaces.
      destruct (SelectConnection (db w) b u) as [|x [|? ?]]; [set_solver| |set_solver].
      apply array_remove_set.
    + rewrite decide_False; [done|]. intros [-> ->]. by apply Hk.
Qed.

(** X26.  For the HTTP manager the algebra holds: after any sequence of its
    operations that all report success, the stored set of every identity is
    the initial one with the attached spaces added and the detached ones
    removed. *)
Lemma http_membership_algebra E a ops : ∀ w rs w',
  Forall is_http ops → pk_unique (db w) →
  run_all E a ops w = (rs, w') → Forall success rs →
  ∀ b u, stored_spaces (db w') b u = membership b u ops (stored_spaces (db w) b u).
Proof.
  induction ops as [|o ops IH]; intros w rs w' Hops Hpk Hrun Hrs b u.
  - cbn in Hrun. by simplify_eq.
  - cbn in Hrun. destruct (run E (program a o) w) as [r w1] eqn:Ho.
    destruct (run_all E a ops w1) as [rs' w2] eqn:Hrest. simplify_eq.
    apply Forall_cons in Hops as [Ho' Hops]. apply Forall_cons in Hrs as [Hr Hrs].
    destruct (http_step_membership _ _ _ _ _ _ Ho' Hpk Ho Hr) as [Hpk1 Hstep].
    unfold membership. cbn. rewrite <-Hstep.
    by apply (IH w1 rs').
Qed.

Lemma http_membership_algebra_witness :
  stored_spaces
    (db (run_all always_ok mqttas
           [HttpPost s1 (Some conn1); HttpPost s2 (Some conn1); HttpDelete s1 "u1" "b1"]
           empty_world).2) "b1" "u1"
  = membership "b1" "u1"
      [HttpPost s1 (Some conn1); HttpPost s2 (Some conn1); HttpDelete s1 "u1" "b1"]
      (stored_spaces (db empty_world) "b1" "u1").
Proof.
  apply (http_membership_algebra always_ok mqttas
           [HttpPost s1 (Some conn1); HttpPost s2 (Some conn1); HttpDelete s1 "u1" "b1"]
           empty_world [inr ok; inr ok; inr ok]
           (run_all always_ok mqttas
              [HttpPost s1 (Some conn1); HttpPost s2 (Some conn1);
               HttpDelete s1 "u1" "b1"] empty_world).2);
    [by repeat constructor|apply NoDup_nil_2|reflexivity|by repeat constructor].
Defined.

(** C2 (the code departs from the claim).  On an empty store, with an
    orchestrator that answers 200, the provisioning manager attaches s1,
    detaches s1 and attaches s2 for the identity (b1, u1).  The three
    operations report success; the set attached minus detached is {s2}, and
    the stored set is empty. *)
Theorem reattach_after_last_detach_stores_nothing :
  let ops := [ProvCreate conn1 token s1; ProvDelete conn1 token s1;
              ProvCreate conn1 token s2] in
  let '(rs, w) := run_all always_ok mqttas ops empty_world in
  Forall success rs
  ∧ db w = [row1 []]
  ∧ stored_spaces (db w) "b1" "u1" = ∅
  ∧ membership "b1" "u1" ops ∅ = {[s2]}
  ∧ stored_spaces (db w) "b1" "u1" ≠ membership "b1" "u1" ops ∅.
Proof.
  cbn. split_and!.
  - by repeat constructor.
  - done.
  - done.
  - unfold membership. cbn. set_solver.
  - unfold membership. cbn. set_solver.
Qed.

(** The statement as written in [queries.sql] would have stored the space:
    on the conflict it overwrites the row left with no space. *)
Example InsertConnection_sql_overwrites :
  InsertConnection_sql 0 [row1 []] "b1" "c1" "u1" "p1" [s2]
  = ([("b1", "u1")], [row1 [s2]]).
Proof. reflexivity. Qed.

(** ** The store primitives behind an attach *)

(** C3 (counterexample).  The identity (b1, u1) is stored with {s1}; two
    attaches, of s2 and of s3, overlap: both read the row, both call the
    orchestrator, both write.  Both report success and the stored set is
    {s1, s3}: the write of the second handler replaces the list written by
    the first, so the space s2 is not united into the row. *)
Lemma overlapping_associates_lose_a_space :
  let '(p, q, w) :=
    interleave always_ok alternate
      (Http.postConnection mqttas s2 (Some conn1))
      (Http.postConnection mqttas s3 (Some conn1)) (world_of [row1 [s1]]) in
  finished p = Some (inr ok) ∧ finished q = Some (inr ok)
  ∧ calls w = [put_request s2 conn1 None; put_request s3 conn1 None]
  ∧ db w = [row1 [s1; s3]]
  ∧ stored_spaces (db w) "b1" "u1" ≠ {[s1; s2; s3]}.
Proof.
  cbn. split_and!; try reflexivity.
  intros H. assert (s2 ∈ ({[s1; s3]} : gset string)) as Hin.
  { cbn in H. set_solver. }
  set_solver.
Qed.

(** C3 (amended).  For a request that passes the presence checks and an
    orchestrator that answers 200: when the identity has no row, the attach
    inserts a row whose spaces are the single requested space; when it has a
    row that lacks the space, the handler, once it has read the row, writes
    back the list it read with the space appended, over whatever the row
    holds at the time of the write; run without another handler in between,
    this makes the stored set the old one united with the space. *)
Theorem attach_writes_back_the_list_it_read E a c s w0 w r :
  present c →
  ¬ Exists (has_key (broker c) (username c)) (db w0) →
  pk_unique (db w) → r ∈ db w → has_key (broker c) (username c) r →
  s ∉ space_ids r →
  (∀ h req, orch E h req = Answer 200) →
  (∃ p, password c = Some p
     ∧ run E (Http.postConnection a s (Some c)) w0
       = (inr ok,
          mkWorld (db w0 ++ [mkRow (broker c) (clientId c) (username c) p [s] (now E)])
                  (calls w0 ++ [mkRequest POST (a +:+ "/connection?space_id=" +:+ s)
                                  (Some (mkPayload (broker c) (username c)
                                           (Some (clientId c)) (Some p))) None])))
  ∧ (∀ w2, run E (step E (Http.postConnection a s (Some c)) w).1 w2
           = (inr ok,
              mkWorld ((λ r', if decide (has_key (broker c) (username c) r')
                              then set_space_ids (space_ids r ++ [s]) r' else r')
                       <$> db w2)
                      (calls w2 ++ [mkRequest PUT (a +:+ "/connection?space_id=" +:+ s)
                                      (Some (mkPayload (broker c) (username c) None None))
                                      None])))
  ∧ stored_spaces (db (run E (Http.postConnection a s (Some c)) w).2)
      (broker c) (username c)
    = stored_spaces (db w) (broker c) (username c) ∪ {[s]}.
Proof.
  intros Hc Hno Hpk Hin Hk Hs Hok.
  pose proof Hc as (Hb & Hu & Hcid & p & Hp & Hp').
  unfold Http.postConnection, truthy_opt, truthy.
  rewrite Hp, !bool_decide_eq_true_2 by done. cbn_run. split_and!.
  - exists p. split; [done|].
    rewrite select_absent by done. cbn_run. answered_200 Hok.
    by rewrite InsertConnection_fresh.
  - intros w2. rewrite (select_unique _ _ _ r) by done. cbn_run.
    rewrite bool_decide_eq_false_2 by done. cbn_run. by answered_200 Hok.
  - rewrite (select_unique _ _ _ r) by done. cbn_run.
    rewrite bool_decide_eq_false_2 by done. cbn_run. answered_200 Hok.
    unfold stored_spaces. rewrite select_update, (select_unique _ _ _ r) by done.
    cbn. rewrite decide_True by done. cbn. set_solver.
Qed.

Lemma present_conn1 : present conn1.
Proof. repeat split; try done. by exists "p1". Qed.

Lemma pk_unique_row1 l : pk_unique [row1 l].
Proof. apply NoDup_singleton. Qed.

Lemma attach_writes_back_the_list_it_read_witness :
  stored_spaces
    (db (run always_ok (Http.postConnection mqttas s2 (Some conn1))
           (world_of [row1 [s1]])).2) "b1" "u1"
  = stored_spaces [row1 [s1]] "b1" "u1" ∪ {[s2]}.
Proof.
  apply (attach_writes_back_the_list_it_read always_ok mqttas conn1 s2
           empty_world (world_of [row1 [s1]]) (row1 [s1]));
    [apply present_conn1|by intros ?%Exists_nil|apply pk_unique_row1
    |cbn; by left|done|cbn; by intros ?%list_elem_of_singleton|done].
Defined.

(** ** Failure of the orchestrator call *)

(** X25.  Every operation of either manager makes at most one orchestrator
    call, whatever the store holds and whatever the orchestrator answers. *)
Lemma at_most_one_call E a o w :
  calls (run E (program a o) w).2 = calls w
  ∨ ∃ req, calls (run E (program a o) w).2 = calls w ++ [req].
Proof.
  destruct (run E (program a o) w) as [r w'] eqn:Hrun. cbn.
  destruct o as [s [c|]|s u b|c tok s|c tok s]; cbn in Hrun;
    unfold_program Hrun; run_cases; eauto.
Qed.

(** C4.  Whenever an attach or a detach, of either manager, has called the
    orchestrator and the call failed (an answer other than 200, or no
    answer), the operation reports a failure, with an error body and a status
    other than 200, and the store is the one it started from. *)
Theorem failed_orchestrator_call_leaves_store E a o w r w' req :
  run E (program a o) w = (r, w') →
  calls w' = calls w ++ [req] →
  orch_fails (orch E (calls w) req) →
  failure r ∧ db w' = db w.
Proof.
  intros Hrun Hcalls Hfail.
  destruct o as [s [c|]|s u b|c tok s|c tok s]; cbn in Hrun;
    unfold_program Hrun;
    run_cases; try finish_failed; try done; use_answer; try done;
    (split; [|done]); eauto using failure_intro, rejected_status.
Qed.

Lemma failed_orchestrator_call_leaves_store_witness :
  orch_fails (orch always_500 (calls empty_world) (post_request s1 conn1 None))
  ∧ failure (inr (mkResponse 500 (ErrorMsg "Request failed with status code 500")))
  ∧ db (mkWorld [] [post_request s1 conn1 None]) = db empty_world.
Proof.
  split; [by cbn|].
  apply (failed_orchestrator_call_leaves_store always_500 mqttas
           (HttpPost s1 (Some conn1)) empty_world _ _ (post_request s1 conn1 None));
    [reflexivity|reflexivity|by cbn].
Defined.

(** ** Attach of a space that is already associated *)

(** C5.  When the row of the identity already lists the space, an attach
    returns 200 with [{ ok: true }] and leaves the world as it is: no
    orchestrator call is recorded and the store is unchanged.  The HTTP
    manager does so for every request that passes its presence checks, the
    provisioning manager for every request. *)
Theorem attach_of_associated_space_is_noop E a w c r s :
  pk_unique (db w) → r ∈ db w → has_key (broker c) (username c) r →
  s ∈ space_ids r →
  (∀ tok, run E (program a (ProvCreate c tok s)) w = (inr (mkResponse 200 OkTrue), w))
  ∧ (present c →
     run E (program a (HttpPost s (Some c))) w = (inr (mkResponse 200 OkTrue), w)).
Proof.
  intros Hpk Hin Hk Hs. split.
  - intros tok. cbn. unfold Provisioner.createMqttConnection. cbn.
    rewrite (select_unique _ _ _ r) by done. cbn.
    rewrite bool_decide_eq_false_2.
    2:{ destruct (space_ids r); [by apply elem_of_nil in Hs|done]. }
    by rewrite bool_decide_eq_true_2.
  - intros (Hb & Hu & Hc & p & Hp & Hp'). cbn.
    unfold Http.postConnection, truthy_opt, truthy.
    rewrite Hp, !bool_decide_eq_true_2 by done. cbn.
    rewrite (select_unique _ _ _ r) by done. cbn.
    by rewrite bool_decide_eq_true_2.
Qed.

Lemma attach_of_associated_space_is_noop_witness :
  pk_unique [row1 [s1; s2]] ∧ s1 ∈ space_ids (row1 [s1; s2])
  ∧ run always_ok (program mqttas (ProvCreate conn1 token s1)) (world_of [row1 [s1; s2]])
    = (inr (mkResponse 200 OkTrue), world_of [row1 [s1; s2]])
  ∧ run always_ok (program mqttas (HttpPost s1 (Some conn1))) (world_of [row1 [s1; s2]])
    = (inr (mkResponse 200 OkTrue), world_of [row1 [s1; s2]]).
Proof.
  assert (s1 ∈ space_ids (row1 [s1; s2])) as Hs by (cbn; by left).
  split; [apply pk_unique_row1|]. split; [exact Hs|].
  destruct (attach_of_associated_space_is_noop always_ok mqttas
              (world_of [row1 [s1; s2]]) conn1 (row1 [s1; s2]) s1) as [H1 H2];
    [apply pk_unique_row1|cbn; by left|done|exact Hs|].
  split; [apply H1|apply H2, present_conn1].
Defined.

(** ** Detach without a row or without the association *)

(** C6.  A detach, of either manager, whose username and broker are given:
    when the identity has no row it answers 404 "connection u@b not found";
    when the row does not list the space it answers 404 "connection u@b not
    associated with space s".  In both cases the world is unchanged: no
    orchestrator call is recorded and the store is the same. *)
Theorem detach_without_association_is_not_found E a o w s u b :
  detaches o = Some (b, u, s) → u ≠ "" → b ≠ "" →
  (¬ Exists (has_key b u) (db w) →
   run E (program a o) w = (inr (not_found_connection u b), w))
  ∧ (∀ r, pk_unique (db w) → r ∈ db w → has_key b u r → s ∉ space_ids r →
     run E (program a o) w = (inr (not_found_association u b s), w)).
Proof.
  intros Ho Hu Hb.
  destruct o as [s' [c|]|s' u' b'|c tok s'|c tok s']; cbn in Ho; simplify_eq; cbn;
    [unfold Http.deleteConnection|unfold Provisioner.deleteMqttConnection];
    unfold truthy; rewrite !bool_decide_eq_true_2 by done; cbn.
  all: split.
  all: try (intros Hno; by rewrite select_absent).
  all: intros r Hpk Hin Hk Hs; rewrite (select_unique _ _ _ r) by done; cbn.
  all: by rewrite bool_decide_eq_false_2.
Qed.

Lemma detach_without_association_is_not_found_witness :
  run always_ok (program mqttas (HttpDelete s2 "u1" "b1")) empty_world
  = (inr (not_found_connection "u1" "b1"), empty_world)
  ∧ run always_ok (program mqttas (HttpDelete s2 "u1" "b1")) (world_of [row1 [s1]])
    = (inr (not_found_association "u1" "b1" s2), world_of [row1 [s1]]).
Proof.
  split.
  - apply (detach_without_association_is_not_found always_ok mqttas
             (HttpDelete s2 "u1" "b1") empty_world s2 "u1" "b1"); [done..|].
    cbn. by intros ?%Exists_nil.
  - apply (detach_without_association_is_not_found always_ok mqttas
             (HttpDelete s2 "u1" "b1") (world_of [row1 [s1]]) s2 "u1" "b1"
             eq_refl) with (r := row1 [s1]); [done|done|apply pk_unique_row1| |done|].
    + cbn. by left.
    + cbn. intros ?%list_elem_of_singleton. done.
Defined.

(** ** Stored credentials *)

(** C7.  When the identity already has a row, an attach of either manager,
    whatever client id and password the request carries and whatever the
    orchestrator answers, leaves every row with its broker, client id,
    username, password and creation time: only [space_ids] can differ.  A
    PUT it sends carries the broker and the username and neither client id
    nor password. *)
Theorem attach_keeps_stored_credentials E a o w b u s res w' :
  attaches o = Some (b, u, s) →
  Exists (has_key b u) (db w) →
  run E (program a o) w = (res, w') →
  Forall2 same_but_spaces (db w) (db w')
  ∧ ∃ new, calls w' = calls w ++ new
      ∧ Forall (λ req, method req = PUT →
                       payload req = Some (mkPayload b u None None)) new.
Proof.
  intros Ho Hex Hrun.
  destruct o as [s' [c|]|s' u' b'|c tok s'|c tok s']; cbn in Ho; simplify_eq;
    cbn in Hrun; unfold_program Hrun; run_cases;
    repeat match goal with
           | H : InsertConnection _ _ _ _ _ _ _ = _ |- _ =>
               rewrite InsertConnection_conflict in H by done; simplify_eq
           end.
  all: split; [first [apply same_but_spaces_refl|apply update_same_but_spaces]|].
  all: first [by exists []; rewrite app_nil_r | eexists [_]; split; [done|]].
  all: repeat constructor; cbn; try done.
Qed.

Lemma attach_keeps_stored_credentials_witness :
  Exists (has_key "b1" "u1") [row1 [s1]]
  ∧ Forall2 same_but_spaces [row1 [s1]] [row1 [s1; s2]]
  ∧ ∃ new, [put_request s2 conn1' None] = [] ++ new
      ∧ Forall (λ req, method req = PUT →
                       payload req = Some (mkPayload "b1" "u1" None None)) new.
Proof.
  assert (Exists (has_key "b1" "u1") [row1 [s1]]) as Hex by (by left).
  split; [exact Hex|].
  apply (attach_keeps_stored_credentials always_ok mqttas (HttpPost s2 (Some conn1'))
           (world_of [row1 [s1]]) "b1" "u1" s2 (inr ok)
           (mkWorld [row1 [s1; s2]] [put_request s2 conn1' None]));
    [reflexivity|exact Hex|reflexivity].
Defined.

(** ** Two attaches of different spaces to an unknown identity *)

(** C8 (counterexample).  On an empty store two attaches of s1 and of s2
    for the identity (b1, u1) overlap: both read "no row", both send a POST
    (no PUT is sent), both try to insert.  Both report success and the
    stored set is {s1}: the second insert meets the row of the first and
    writes nothing. *)
Lemma overlapping_attaches_create_twice :
  let '(p, q, w) :=
    interleave always_ok alternate
      (Http.postConnection mqttas s1 (Some conn1))
      (Http.postConnection mqttas s2 (Some conn1)) empty_world in
  finished p = Some (inr ok) ∧ finished q = Some (inr ok)
  ∧ calls w = [post_request s1 conn1 None; post_request s2 conn1 None]
  ∧ db w = [row1 [s1]]
  ∧ s2 ∉ stored_spaces (db w) "b1" "u1".
Proof. cbn. split_and!; try reflexivity. set_solver. Qed.

(** C8 (amended).  When the two attaches run one after the other, for a
    request that passes the presence checks, an identity without a row and
    an orchestrator that answers 200: both report success, the orchestrator
    receives one POST and then one PUT, and the stored set is the two
    spaces.  This holds for either manager. *)
Theorem serial_attaches_create_then_associate E a c sa sb w mk :
  present c → sa ≠ sb →
  ¬ Exists (has_key (broker c) (username c)) (db w) →
  (∀ h req, orch E h req = Answer 200) →
  (mk = (λ s, HttpPost s (Some c)) ∨ ∃ tok, mk = (λ s, ProvCreate c tok s)) →
  ∃ req1 req2 w',
    run_all E a [mk sa; mk sb] w = ([inr ok; inr ok], w')
    ∧ calls w' = calls w ++ [req1; req2]
    ∧ method req1 = POST ∧ method req2 = PUT
    ∧ stored_spaces (db w') (broker c) (username c) = {[sa; sb]}.
Proof.
  intros Hc Hne Hno Hok Hmk.
  pose proof Hc as (Hb & Hu & Hcid & p & Hp & Hp').
  assert (∀ t, SelectConnection
            (db w ++ [mkRow (broker c) (clientId c) (username c) p t (now E)])
            (broker c) (username c)
          = [mkRow (broker c) (clientId c) (username c) p t (now E)]) as Hsel.
  { intros t. rewrite select_app, select_absent by done.
    unfold SelectConnection. rewrite filter_cons, decide_True by done. done. }
  destruct Hmk as [->|[tok ->]]; cbn_run;
    [unfold Http.postConnection, truthy_opt, truthy;
     rewrite Hp, !bool_decide_eq_true_2 by done
    |unfold Provisioner.createMqttConnection];
    cbn_run; rewrite select_absent by done; cbn_run;
    answered_200 Hok; rewrite ?Hp;
    rewrite InsertConnection_fresh by done; cbn_run;
    rewrite Hsel; cbn_run;
    rewrite ?(bool_decide_eq_false_2 (_ = 0%nat)) by done;
    rewrite (bool_decide_eq_false_2 (_ ∈ _)) by set_solver; cbn_run;
    answered_200 Hok;
    (do 3 eexists; split; [reflexivity|]); cbn_run;
    (split; [by rewrite <-app_assoc|]); (split_and!; [done..|]);
    unfold stored_spaces; rewrite select_update, Hsel; cbn;
    rewrite decide_True by done; cbn; set_solver.
Qed.

Lemma serial_attaches_create_then_associate_witness :
  ∃ req1 req2 w',
    run_all always_ok mqttas [HttpPost s1 (Some conn1); HttpPost s2 (Some conn1)]
      empty_world = ([inr ok; inr ok], w')
    ∧ calls w' = [] ++ [req1; req2]
    ∧ method req1 = POST ∧ method req2 = PUT
    ∧ stored_spaces (db w') "b1" "u1" = {[s1; s2]}.
Proof.
  apply (serial_attaches_create_then_associate always_ok mqttas conn1 s1 s2
           empty_world (λ s, HttpPost s (Some conn1)));
    [apply present_conn1|done|by intros ?%Exists_nil|done|by left].
Defined.

(** ** Start-up and the live-connections route *)



(** ** The tenant-facing list of connections *)

Lemma getConnections_run E s w :
  run E (Http.getConnections s) w
  = (inr (let connections := SelectSpaceConnections (db w) [s] in
          if bool_decide (length connections = 0%nat)
          then mkResponse 200 NoBody
          else mkResponse 200 (MqttClients (obfuscated <$> connections))),
     w).
Proof.
  unfold Http.getConnections. cbn. case_bool_decide; reflexivity.
Qed.

(** C10.  [GET /mqtt/connections] for a space answers either with no body
    or with one entry per stored row that lists the space; an entry has the
    row's broker, client id and username, and neither password nor spaces.
    Two stores whose rows differ in passwords only get the same answer. *)
Theorem getConnections_independent_of_password E s w1 w2 :
  Forall2 same_but_password (db w1) (db w2) →
  (run E (Http.getConnections s) w1).1 = (run E (Http.getConnections s) w2).1
  ∧ ∃ resp, (run E (Http.getConnections s) w1).1 = inr resp
      ∧ match body resp with
        | NoBody => True
        | MqttClients l =>
            Forall (λ m, password m = None ∧ spacesIds m = None
                         ∧ ∃ conn, conn ∈ db w1 ∧ s ∈ space_ids conn
                             ∧ broker m = Db.broker conn
                             ∧ clientId m = client_id conn
                             ∧ username m = Db.username conn) l
        | _ => False
        end.
Proof.
  intros H. rewrite !getConnections_run. cbn. split.
  - rewrite <-(obfuscated_same_but_password _ _ s H).
    rewrite <-(length_fmap obfuscated (SelectSpaceConnections (db w1) [s])).
    rewrite <-(length_fmap obfuscated (SelectSpaceConnections (db w2) [s])).
    by rewrite (obfuscated_same_but_password _ _ s H).
  - eexists. split; [done|]. case_bool_decide; cbn; [done|].
    apply Forall_fmap, Forall_forall. intros conn Hin.
    apply list_elem_of_filter in Hin as [Hc Hin]. cbn.
    split_and!; [done..|]. exists conn. split_and!; try done.
    unfold array_contains in Hc. by inversion Hc.
Qed.

Lemma getConnections_independent_of_password_witness :
  Forall2 same_but_password [row1 [s1]] [row1' [s1]]
  ∧ (run always_ok (Http.getConnections s1) (world_of [row1 [s1]])).1
    = (run always_ok (Http.getConnections s1) (world_of [row1' [s1]])).1.
Proof.
  assert (Forall2 same_but_password [row1 [s1]] [row1' [s1]]) as H
    by (by repeat constructor).
  split; [exact H|].
  apply (getConnections_independent_of_password always_ok s1
           (world_of [row1 [s1]]) (world_of [row1' [s1]]) H).
Defined.

(** * Further properties of the two managers *)

Import Invariants MoreSamples.

(** ** What every operation answers *)


(** ** Invariants of the table *)



(** X3.  Every operation keeps the primary key: when no two rows have the
    same (broker, username) before it, none have after it. *)
Theorem manager_keeps_primary_key E a o w :
  pk_unique (db w) → pk_unique (db (run E (program a o) w).2).
Proof.
  intros Hpk. destruct (run E (program a o) w) as [r w'] eqn:Hrun. cbn.
  destruct o as [s [c|]|s u b|c tok s|c tok s]; cbn in Hrun;
    unfold_program Hrun; run_cases; try done;
    rewrite ?prune_deletes_nothing;
    try (apply pk_unique_update;
         [intros r0; by destruct (decide (has_key _ _ r0))|done]).
  all: match goal with
       | H : InsertConnection _ ?t ?b _ ?u _ _ = _ |- _ =>
           destruct (decide (Exists (has_key b u) t));
           [rewrite InsertConnection_conflict in H by done
           |rewrite InsertConnection_fresh in H by done]; simplify_eq
       end; [done|by apply pk_unique_insert].
Qed.

Lemma manager_keeps_primary_key_witness :
  pk_unique [row1 [s1]; row2]
  ∧ pk_unique (db (run always_ok (program mqttas (HttpPost s2 (Some conn1)))
                     (world_of [row1 [s1]; row2])).2).
Proof.
  assert (pk_unique [row1 [s1]; row2]) as H.
  { unfold pk_unique. cbn. apply NoDup_cons. split; [|apply NoDup_singleton].
    by intros [=]%list_elem_of_singleton. }
  split; [exact H|].
  apply (manager_keeps_primary_key always_ok mqttas (HttpPost s2 (Some conn1))
           (world_of [row1 [s1]; row2])). exact H.
Defined.

(** X4.  The store is written only after the orchestrator has answered
    200: when an operation of either manager leaves a table other than the
    one it started from, it has made exactly one orchestrator call, and the
    answer to that call was 200. *)
Theorem store_changes_only_after_200 E a o w :
  db (run E (program a o) w).2 ≠ db w →
  ∃ req, calls (run E (program a o) w).2 = calls w ++ [req]
         ∧ orch E (calls w) req = Answer 200.
Proof.
  destruct (run E (program a o) w) as [r w'] eqn:Hrun. cbn. intros Hne.
  destruct o as [s [c|]|s u b|c tok s|c tok s]; cbn in Hrun;
    unfold_program Hrun; run_cases; try done;
    eexists; (split; [reflexivity|]); use_answer;
    match goal with
    | H : ¬ (?z ≠ 200), H' : orch _ _ _ = Answer ?z |- _ =>
        rewrite H'; f_equal; destruct (decide (z = 200)); [done|by destruct H]
    end.
Qed.

Lemma store_changes_only_after_200_witness :
  ∃ req,
    calls (run always_ok (program mqttas (ProvCreate conn1 token s1)) empty_world).2
    = calls empty_world ++ [req]
    ∧ orch always_ok (calls empty_world) req = Answer 200.
Proof.
  apply (store_changes_only_after_200 always_ok mqttas (ProvCreate conn1 token s1)
           empty_world).
  cbn. discriminate.
Defined.

Lemma spaces_nodup_update (ids : list string) b u (t : Table) :
  NoDup ids → spaces_nodup t →
  spaces_nodup ((λ r, if decide (has_key b u r) then set_space_ids ids r else r) <$> t).
Proof.
  intros Hids Ht. apply Forall_fmap. eapply Forall_impl; [exact Ht|].
  intros r Hr. cbn. by destruct (decide (has_key b u r)).
Qed.

Lemma spaces_nodup_remove x b u (t : Table) :
  spaces_nodup t →
  spaces_nodup ((λ r, if decide (has_key b u r)
                      then set_space_ids (array_remove (space_ids r) x) r else r) <$> t).
Proof.
  intros Ht. apply Forall_fmap. eapply Forall_impl; [exact Ht|].
  intros r Hr. cbn. destruct (decide (has_key b u r)); [|done].
  cbn. by apply NoDup_filter.
Qed.

Lemma read_row_nodup (t : Table) b u x s :
  spaces_nodup t → SelectConnection t b u = [x] → s ∉ space_ids x →
  NoDup (space_ids x ++ [s]).
Proof.
  intros Ht Hsel Hs. apply NoDup_app. split_and!.
  - eapply (proj1 (Forall_forall _ _) Ht).
    eapply select_has_key. rewrite Hsel. by left.
  - intros y Hy ->%list_elem_of_singleton. done.
  - apply NoDup_singleton.
Qed.

(** X5.  No operation makes a row list a space twice: when every row's
    space list is free of duplicates before the operation, it is after. *)
Theorem manager_keeps_spaces_duplicate_free E a o w :
  spaces_nodup (db w) → spaces_nodup (db (run E (program a o) w).2).
Proof.
  intros Hnd. destruct (run E (program a o) w) as [r w'] eqn:Hrun. cbn.
  destruct o as [s [c|]|s u b|c tok s|c tok s]; cbn in Hrun;
    unfold_program Hrun; run_cases; try done;
    rewrite ?prune_deletes_nothing; try (by apply spaces_nodup_remove).
  all: try (read_row x Hsel; decided Hs; apply spaces_nodup_update; [|done];
            by eapply read_row_nodup).
  all: match goal with
       | H : InsertConnection _ ?t ?b _ ?u _ _ = _ |- _ =>
           destruct (decide (Exists (has_key b u) t));
           [rewrite InsertConnection_conflict in H by done
           |rewrite InsertConnection_fresh in H by done]; simplify_eq
       end; [done|].
  all: apply Forall_app; split; [done|]; repeat constructor; set_solver.
Qed.

Lemma manager_keeps_spaces_duplicate_free_witness :
  spaces_nodup (db (run always_ok (program mqttas (ProvCreate conn1 token s2))
                      (world_of [row1 [s1]])).2).
Proof.
  apply (manager_keeps_spaces_duplicate_free always_ok mqttas
           (ProvCreate conn1 token s2) (world_of [row1 [s1]])).
  cbn. repeat constructor. by intros ?%elem_of_nil.
Defined.

Lemma filter_other_update (f : Row → list string) b u (t : Table) :
  filter (λ r, ¬ has_key b u r)
    ((λ r, if decide (has_key b u r) then set_space_ids (f r) r else r) <$> t)
  = filter (λ r, ¬ has_key b u r) t.
Proof.
  induction t as [|r t IH]; [done|]. rewrite fmap_cons, !filter_cons.
  destruct (decide (has_key b u r)) as [Hk|Hk].
  - rewrite !decide_False by (intros Hn; by apply Hn). done.
  - rewrite !decide_True by done. by rewrite IH.
Qed.

(** X6.  An attach or a detach for the identity (b, u) leaves every row of
    every other identity as it is, in the same order, whatever it answers. *)
Theorem manager_leaves_other_identities E a o w b u :
  touches o b u →
  filter (λ r, ¬ has_key b u r) (db (run E (program a o) w).2)
  = filter (λ r, ¬ has_key b u r) (db w).
Proof.
  intros Ht. destruct (run E (program a o) w) as [r w'] eqn:Hrun. cbn.
  destruct o as [s [c|]|s u' b'|c tok s|c tok s];
    destruct Ht as [[s0 Ht]|[s0 Ht]]; cbn in Ht; simplify_eq; cbn in Hrun;
    unfold_program Hrun; run_cases; try done;
    rewrite ?prune_deletes_nothing;
    try (by rewrite (filter_other_update (λ _, _)));
    try (by rewrite (filter_other_update (λ r, array_remove (space_ids r) _))).
  all: match goal with
       | H : InsertConnection _ ?t ?b _ ?u _ _ = _ |- _ =>
           destruct (decide (Exists (has_key b u) t));
           [rewrite InsertConnection_conflict in H by done
           |rewrite InsertConnection_fresh in H by done]; simplify_eq
       end; [done|].
  all: rewrite filter_app, filter_cons, decide_False, filter_nil, app_nil_r;
       [done|intros Hn; by apply Hn].
Qed.

Lemma manager_leaves_other_identities_witness :
  filter (λ r, ¬ has_key "b1" "u1" r)
    (db (run always_ok (program mqttas (HttpDelete s1 "u1" "b1"))
           (world_of [row2; row1 [s1]])).2)
  = filter (λ r, ¬ has_key "b1" "u1" r) (db (world_of [row2; row1 [s1]])).
Proof.
  apply (manager_leaves_other_identities always_ok mqttas (HttpDelete s1 "u1" "b1")
           (world_of [row2; row1 [s1]]) "b1" "u1").
  right. by exists s1.
Defined.

(** ** Attach, detach and the list of a space *)

Lemma stored_space_has_row (t : Table) b u s :
  s ∈ stored_spaces t b u →
  ∃ r, r ∈ t ∧ has_key b u r ∧ s ∈ space_ids r.
Proof.
  unfold stored_spaces.
  destruct (SelectConnection t b u) as [|r [|? ?]] eqn:Hsel; [set_solver| |set_solver].
  intros Hs%elem_of_list_to_set. exists r.
  destruct (select_has_key t b u r) as [Hk Hin]; [rewrite Hsel; by left|done].
Qed.

Lemma row_space_is_stored (t : Table) b u r s :
  pk_unique t → r ∈ t → has_key b u r → s ∈ space_ids r → s ∈ stored_spaces t b u.
Proof.
  intros Hpk Hin Hk Hs. unfold stored_spaces.
  rewrite (select_unique _ _ _ r) by done. by apply elem_of_list_to_set.
Qed.

(** X7.  After a successful [POST /mqtt/connection] for a space,
    [GET /mqtt/connections] for that space answers 200 with a list that has
    an entry for the identity; the entry carries no password. *)
Theorem http_attach_then_listed E a s c w r w' :
  pk_unique (db w) →
  run E (Http.postConnection a s (Some c)) w = (r, w') → success r →
  ∃ l m, run E (Http.getConnections s) w' = (inr (mkResponse 200 (MqttClients l)), w')
         ∧ m ∈ l ∧ broker m = broker c ∧ username m = username c
         ∧ password m = None.
Proof.
  intros Hpk Hrun Hr.
  destruct (http_step_membership E a (HttpPost s (Some c)) w r w' I Hpk Hrun Hr)
    as [Hpk' Hst].
  specialize (Hst (broker c) (username c)). cbn in Hst.
  rewrite decide_True in Hst by done.
  destruct (stored_space_has_row (db w') (broker c) (username c) s)
    as (x & Hin & [Hb Hu] & Hs); [rewrite Hst; set_solver|].
  assert (x ∈ SelectSpaceConnections (db w') [s]) as Hsel.
  { apply list_elem_of_filter. split; [|done]. by repeat constructor. }
  rewrite getConnections_run. cbn.
  rewrite bool_decide_eq_false_2.
  2:{ intros Hlen. apply nil_length_inv in Hlen. rewrite Hlen in Hsel.
      by apply elem_of_nil in Hsel. }
  eexists _, (obfuscated x). split; [reflexivity|].
  split; [by apply list_elem_of_fmap_2|]. done.
Qed.

Lemma http_attach_then_listed_witness :
  ∃ l m,
    run always_ok (Http.getConnections s2)
      (mkWorld [row1 [s1; s2]] [put_request s2 conn1 None])
    = (inr (mkResponse 200 (MqttClients l)),
       mkWorld [row1 [s1; s2]] [put_request s2 conn1 None])
    ∧ m ∈ l ∧ broker m = broker conn1 ∧ username m = username conn1
    ∧ password m = None.
Proof.
  apply (http_attach_then_listed always_ok mqttas s2 conn1 (world_of [row1 [s1]])
           (inr ok) (mkWorld [row1 [s1; s2]] [put_request s2 conn1 None]));
    [apply pk_unique_row1|reflexivity|reflexivity].
Defined.

(** X8.  After a successful [DELETE /mqtt/connection] of a space from an
    identity, [GET /mqtt/connections] for that space answers without an
    entry for the identity. *)
Theorem http_detach_then_unlisted E a s u b w r w' :
  pk_unique (db w) →
  run E (Http.deleteConnection a s u b) w = (r, w') → success r →
  ∃ resp, run E (Http.getConnections s) w' = (inr resp, w')
    ∧ match body resp with
      | NoBody => True
      | MqttClients l => Forall (λ m, ¬ (broker m = b ∧ username m = u)) l
      | _ => False
      end.
Proof.
  intros Hpk Hrun Hr.
  destruct (http_step_membership E a (HttpDelete s u b) w r w' I Hpk Hrun Hr)
    as [Hpk' Hst].
  specialize (Hst b u). cbn in Hst. rewrite decide_True in Hst by done.
  rewrite getConnections_run. eexists. split; [reflexivity|]. cbn.
  case_bool_decide; cbn; [done|].
  apply Forall_fmap, Forall_forall. intros x [Hc Hin]%list_elem_of_filter [Hb Hu].
  cbn in Hb, Hu. assert (s ∈ stored_spaces (db w') b u) as Hs.
  { apply (row_space_is_stored _ _ _ x); [done..|]. by inversion Hc. }
  rewrite Hst in Hs. set_solver.
Qed.

Lemma http_detach_then_unlisted_witness :
  ∃ resp,
    run always_ok (Http.getConnections s1)
      (mkWorld [row1 [s2]] [delete_request s1 conn1 None])
    = (inr resp, mkWorld [row1 [s2]] [delete_request s1 conn1 None])
    ∧ match body resp with
      | NoBody => True
      | MqttClients l => Forall (λ m, ¬ (broker m = "b1" ∧ username m = "u1")) l
      | _ => False
      end.
Proof.
  apply (http_detach_then_unlisted always_ok mqttas s1 "u1" "b1"
           (world_of [row1 [s1; s2]]) (inr ok)
           (mkWorld [row1 [s2]] [delete_request s1 conn1 None]));
    [apply pk_unique_row1|reflexivity|reflexivity].
Defined.

(** ** Repeated requests *)

(** A request that passes the presence checks of [postConnection] has the
    four values. *)
Lemma present_of_checks c :
  negb (truthy (broker c)) || negb (truthy (username c))
  || negb (truthy (clientId c)) || negb (truthy_opt (password c)) = false →
  present c.
Proof.
  unfold truthy_opt, present. intros H.
  repeat (apply orb_false_iff in H as [H ?]).
  repeat match goal with
         | H : negb _ = false |- _ => apply negb_false_iff in H
         end.
  destruct (password c) as [p|]; [|done].
  repeat match goal with
         | H : truthy _ = true |- _ => apply bool_decide_eq_true in H
         end.
  split_and!; try done. by exists p.
Qed.

(** X22.  [POST /mqtt/connection] is idempotent: the same request sent
    again after a success answers 200 with [{ ok: true }], makes no
    orchestrator call and leaves the table as the first request left it. *)
Theorem http_attach_twice_is_noop E a s c w r w1 :
  pk_unique (db w) →
  run E (Http.postConnection a s (Some c)) w = (r, w1) → success r →
  run E (Http.postConnection a s (Some c)) w1 = (inr ok, w1).
Proof.
  intros Hpk Hrun Hr.
  destruct (http_step_membership E a (HttpPost s (Some c)) w r w1 I Hpk Hrun Hr)
    as [Hpk' Hst].
  specialize (Hst (broker c) (username c)). cbn in Hst.
  rewrite decide_True in Hst by done.
  destruct (stored_space_has_row (db w1) (broker c) (username c) s)
    as (x & Hin & Hk & Hs); [rewrite Hst; set_solver|].
  assert (present c) as (Hb & Hu & Hc & p & Hp & Hp').
  { apply present_of_checks. unfold success in Hr. subst r.
    unfold Http.postConnection in Hrun.
    destruct (_ || _) eqn:Hchk in Hrun; [|by rewrite Hchk]. cbn in Hrun. done. }
  unfold Http.postConnection, truthy_opt, truthy.
  rewrite Hp, !bool_decide_eq_true_2 by done. cbn.
  rewrite (select_unique _ _ _ x) by done. cbn.
  by rewrite bool_decide_eq_true_2.
Qed.

Lemma http_attach_twice_is_noop_witness :
  run always_ok (Http.postConnection mqttas s2 (Some conn1))
    (mkWorld [row1 [s1; s2]] [put_request s2 conn1 None])
  = (inr ok, mkWorld [row1 [s1; s2]] [put_request s2 conn1 None]).
Proof.
  apply (http_attach_twice_is_noop always_ok mqttas s2 conn1 (world_of [row1 [s1]])
           (inr ok) (mkWorld [row1 [s1; s2]] [put_request s2 conn1 None]));
    [apply pk_unique_row1|reflexivity|reflexivity].
Defined.

(** X23.  A detach, of either manager, repeated after a success is refused:
    the row is still there without the space, so the second request answers
    404 "connection u@b not associated with space s", makes no orchestrator
    call and leaves the table as it is. *)
Theorem detach_twice_is_not_found E a o w r w1 b u s :
  detaches o = Some (b, u, s) →
  run E (program a o) w = (r, w1) → success r →
  run E (program a o) w1 = (inr (not_found_association u b s), w1).
Proof.
  intros Ho Hrun Hr. unfold success in Hr. subst r.
  destruct o as [s' [c|]|s' u' b'|c tok s'|c tok s']; cbn in Ho; simplify_eq;
    cbn in Hrun |- *; unfold_program Hrun; run_cases.
  all: read_row x Hsel.
  all: rewrite prune_deletes_nothing.
  all: [> unfold Http.deleteConnection | unfold Provisioner.deleteMqttConnection].
  all: match goal with H : negb (truthy _) || _ = false |- _ => rewrite H end.
  all: cbn_run.
  all: rewrite (select_update (λ r, array_remove (space_ids r) s)), Hsel; cbn.
  all: rewrite decide_True by (by eapply select_has_key; rewrite Hsel; left).
  all: cbn.
  all: rewrite bool_decide_eq_false_2; [done|].
  all: unfold array_remove; intros [? ?]%list_elem_of_filter; done.
Qed.

Lemma detach_twice_is_not_found_witness :
  run always_ok (program mqttas (ProvDelete conn1 token s1))
    (mkWorld [row1 [s2]] [delete_request s1 conn1 (Some token)])
  = (inr (not_found_association "u1" "b1" s1),
     mkWorld [row1 [s2]] [delete_request s1 conn1 (Some token)]).
Proof.
  apply (detach_twice_is_not_found always_ok mqttas (ProvDelete conn1 token s1)
           (world_of [row1 [s1; s2]]) (inr ok)
           (mkWorld [row1 [s2]] [delete_request s1 conn1 (Some token)])
           "b1" "u1" s1);
    reflexivity.
Defined.

(** ** The calls to the orchestrator *)

(** X24.  A call to the orchestrator carries an Authorization header only
    when the provisioning manager makes it, and then the access token it was
    given; the handlers of the HTTP manager send none.  A DELETE has no
    body, a POST and a PUT have one. *)
Theorem only_the_provisioner_sends_the_token E a o w req :
  calls (run E (program a o) w).2 = calls w ++ [req] →
  bearer req = token_of o
  ∧ (is_Some (payload req) ↔ method req ≠ DELETE).
Proof.
  destruct (run E (program a o) w) as [r w'] eqn:Hrun. cbn. intros Hc.
  destruct o as [s [c|]|s u b|c tok s|c tok s]; cbn in Hrun;
    unfold_program Hrun; run_cases; try finish_failed; cbn;
    (split; [done|]); split; try done; by intros [? [=]].
Qed.

Lemma only_the_provisioner_sends_the_token_witness :
  bearer (post_request s1 conn1 (Some token)) = token_of (ProvCreate conn1 token s1)
  ∧ (is_Some (payload (post_request s1 conn1 (Some token)))
     ↔ method (post_request s1 conn1 (Some token)) ≠ DELETE).
Proof.
  apply (only_the_provisioner_sends_the_token always_ok mqttas
           (ProvCreate conn1 token s1) empty_world
           (post_request s1 conn1 (Some token))).
  reflexivity.
Defined.

(** * The middleware of the tenant-facing API *)

(** ** The matcher decides the matching relation *)

Section Regex.
Import Stdlib.Strings.Ascii Middleware.

(** String concatenation, which does not reduce on its own. *)
Lemma append_cons c (s1 s2 : string) : String c s1 +:+ s2 = String c (s1 +:+ s2).
Proof. reflexivity. Qed.

Lemma append_nil_l (s : string) : "" +:+ s = s.
Proof. reflexivity. Qed.

Lemma append_nil_r (s : string) : s +:+ "" = s.
Proof. induction s as [|c s IH]; [done|]. by rewrite append_cons, IH. Qed.

Lemma append_assoc (s1 s2 s3 : string) : (s1 +:+ s2) +:+ s3 = s1 +:+ (s2 +:+ s3).
Proof. induction s1 as [|c s1 IH]; [done|]. by rewrite !append_cons, IH. Qed.

Lemma append_eq_nil (s1 s2 : string) : s1 +:+ s2 = "" → s1 = "" ∧ s2 = "".
Proof. destruct s1; [done|]. rewrite append_cons. intros [=]. Qed.

Lemma append_eq_cons (s1 s2 : string) c s :
  s1 +:+ s2 = String c s →
  (s1 = "" ∧ s2 = String c s) ∨ ∃ s1', s1 = String c s1' ∧ s = s1' +:+ s2.
Proof.
  destruct s1 as [|c' s1]; [by left|]. rewrite append_cons.
  intros [= -> <-]. right. by eexists.
Qed.

(** [nullable r] holds exactly when [r] matches the empty string. *)
Lemma nullable_spec r : nullable r = true ↔ matches r "".
Proof.
  split.
  - induction r as [| | | | |r1 IH1 r2 IH2|r1 IH1 r2 IH2|r1 IH1]; cbn; intros H;
      try done.
    + constructor.
    + apply andb_true_iff in H as [H1 H2].
      apply (m_seq _ _ "" ""); auto.
    + apply orb_true_iff in H as [H|H]; [apply m_alt_l|apply m_alt_r]; auto.
    + constructor.
  - intros H. remember "" as s eqn:Hs. induction H; cbn; try done.
    + apply append_eq_nil in Hs as [-> ->]. rewrite IHmatches1, IHmatches2; done.
    + rewrite IHmatches; done.
    + rewrite IHmatches, orb_true_r; done.
Qed.

(** A non-empty match of [r*] starts with a non-empty match of [r]. *)
Lemma star_cons_inv r c s :
  matches (Star r) (String c s) →
  ∃ s1 s2, s = s1 +:+ s2 ∧ matches r (String c s1) ∧ matches (Star r) s2.
Proof.
  intros H. remember (Star r) as r' eqn:Hr. remember (String c s) as s' eqn:Hs.
  revert c s Hs.
  induction H as [| | | | | | | |r0 m1 m2 H1 IH1 H2 IH2]; intros c0 s0 Hs;
    try done. simplify_eq.
  apply append_eq_cons in Hs as [[-> ->]|(m1' & -> & ->)].
  - by apply IH2.
  - by exists m1', m2.
Qed.

Lemma matches_seq_inv r1 r2 s :
  matches (Seq r1 r2) s → ∃ s1 s2, s = s1 +:+ s2 ∧ matches r1 s1 ∧ matches r2 s2.
Proof. inversion 1; subst. by eexists _, _. Qed.

Lemma matches_alt_inv r1 r2 s : matches (Alt r1 r2) s → matches r1 s ∨ matches r2 s.
Proof. inversion 1; subst; auto. Qed.

(** The derivative by [c] matches what is left of the matches of [r] that
    start with [c]. *)
Lemma deriv_spec c r : ∀ s, matches (deriv c r) s ↔ matches r (String c s).
Proof.
  induction r as [| | c'| | |r1 IH1 r2 IH2|r1 IH1 r2 IH2|r1 IH1]; intros s; cbn.
  - split; inversion 1.
  - split; inversion 1.
  - case_decide as Hc.
    + subst. split; inversion 1; subst; constructor.
    + split; inversion 1; subst; done.
  - destruct (line_terminator c) eqn:Hlt.
    + split; inversion 1; subst. congruence.
    + split; inversion 1; subst; by constructor.
  - split; inversion 1; subst; constructor.
  - assert (matches (Seq (deriv c r1) r2) s ↔
            ∃ s1 s2, s = s1 +:+ s2 ∧ matches r1 (String c s1) ∧ matches r2 s2) as Hseq.
    { split.
      - intros (s1 & s2 & -> & H1 & H2)%matches_seq_inv.
        eexists _, _. split; [done|]. split; [by apply IH1|done].
      - intros (s1 & s2 & -> & H1 & H2). constructor; [by apply IH1|done]. }
    destruct (nullable r1) eqn:Hn.
    + split.
      * intros [H|H]%matches_alt_inv.
        -- apply Hseq in H as (s1 & s2 & -> & H1 & H2).
           by apply (m_seq _ _ (String c s1) s2).
        -- apply (m_seq _ _ "" (String c s)); [by apply nullable_spec|by apply IH2].
      * intros (s1 & s2 & Heq & H1 & H2)%matches_seq_inv. symmetry in Heq.
        apply append_eq_cons in Heq as [[-> ->]|(s1' & -> & ->)].
        -- apply m_alt_r. by apply IH2.
        -- apply m_alt_l. apply Hseq. by eexists _, _.
    + rewrite Hseq. split.
      * intros (s1 & s2 & -> & H1 & H2). by apply (m_seq _ _ (String c s1) s2).
      * intros (s1 & s2 & Heq & H1 & H2)%matches_seq_inv. symmetry in Heq.
        apply append_eq_cons in Heq as [[-> ->]|(s1' & -> & ->)].
        -- apply nullable_spec in H1. congruence.
        -- by eexists _, _.
  - split.
    + intros [H|H]%matches_alt_inv; [apply m_alt_l; by apply IH1|apply m_alt_r; by apply IH2].
    + intros [H|H]%matches_alt_inv; [apply m_alt_l; by apply IH1|apply m_alt_r; by apply IH2].
  - split.
    + intros (s1 & s2 & -> & H1 & H2)%matches_seq_inv.
      apply (m_star_cons _ (String c s1) s2); [by apply IH1|done].
    + intros (s1 & s2 & -> & H1 & H2)%star_cons_inv.
      constructor; [by apply IH1|done].
Qed.

(** The matcher is sound and complete for the matching relation. *)
Lemma matchb_spec s : ∀ r, matchb r s = true ↔ matches r s.
Proof.
  induction s as [|c s IH]; intros r; cbn.
  - apply nullable_spec.
  - rewrite IH. apply deriv_spec.
Qed.

Lemma matches_dot_inv s :
  matches Dot s → ∃ c, s = String c "" ∧ line_terminator c = false.
Proof. inversion 1; subst. by eexists. Qed.

Lemma matches_chr_inv c s : matches (Chr c) s → s = String c "".
Proof. by inversion 1. Qed.

Lemma matches_star_any s : matches (Star Any) s.
Proof.
  induction s as [|c s IH]; [constructor|].
  apply (m_star_cons Any (String c "") s); [constructor|done].
Qed.

(** [.*] and [.+] match the strings without a line terminator. *)
Lemma matches_star_dot s : matches (Star Dot) s ↔ dotted s = true.
Proof.
  split.
  - induction s as [|c s IH]; [done|].
    intros (s1 & s2 & -> & H1 & H2)%star_cons_inv.
    apply matches_dot_inv in H1 as (c' & [= <- ->] & Hc).
    rewrite append_nil_l in IH |- *. cbn. by rewrite IH, Hc.
  - induction s as [|c s IH]; [constructor|]. cbn.
    intros [Hc Hs]%andb_true_iff. apply negb_true_iff in Hc.
    apply (m_star_cons Dot (String c "") s); [by constructor|auto].
Qed.

Lemma matches_plus_dot s : matches (Plus Dot) s ↔ s ≠ "" ∧ dotted s = true.
Proof.
  unfold Plus. split.
  - intros (s1 & s2 & -> & H1 & H2)%matches_seq_inv.
    apply matches_dot_inv in H1 as (c & -> & Hc).
    rewrite append_cons, append_nil_l. split; [done|].
    cbn. apply matches_star_dot in H2. by rewrite H2, Hc.
  - intros [Hne Hd]. destruct s as [|c s]; [done|]. cbn in Hd.
    apply andb_true_iff in Hd as [Hc Hs]. apply negb_true_iff in Hc.
    apply (m_seq Dot (Star Dot) (String c "") s); [by constructor|].
    by apply matches_star_dot.
Qed.

(** [exec] finds a match anywhere in the string. *)
Lemma exec_spec r s :
  exec r s = true ↔ ∃ pre m post, s = pre +:+ m +:+ post ∧ matches r m.
Proof.
  unfold exec. rewrite matchb_spec. split.
  - intros (pre & s' & -> & _ & (m & post & -> & Hm & _)%matches_seq_inv)%matches_seq_inv.
    by exists pre, m, post.
  - intros (pre & m & post & -> & Hm).
    constructor; [apply matches_star_any|].
    constructor; [done|apply matches_star_any].
Qed.

(** What [/!.+:.+/] matches as a whole. *)
Lemma ROOM_ID_VALIDATOR_matches m :
  matches ROOM_ID_VALIDATOR m ↔
  ∃ x y, m = "!" +:+ x +:+ ":" +:+ y
         ∧ x ≠ "" ∧ y ≠ "" ∧ dotted x = true ∧ dotted y = true.
Proof.
  unfold ROOM_ID_VALIDATOR. split.
  - intros (b & m1 & -> & Hb & (x & m2 & -> & Hx
            & (c & y & -> & Hc & Hy)%matches_seq_inv)%matches_seq_inv)%matches_seq_inv.
    apply matches_chr_inv in Hb as ->. apply matches_chr_inv in Hc as ->.
    apply matches_plus_dot in Hx as [? ?], Hy as [? ?]. by exists x, y.
  - intros (x & y & -> & Hx & Hy & Hdx & Hdy).
    constructor; [constructor|]. constructor; [by apply matches_plus_dot|].
    constructor; [constructor|by apply matches_plus_dot].
Qed.

End Regex.

(** ** extractToken and checkSpaceId *)

Section Middleware.
Import Stdlib.Strings.Ascii Middleware.

(** A split has at least one piece; its pieces have no space, and joined by
    single spaces they give the string back. *)
Lemma split_space_nonempty s : split_space s ≠ [].
Proof.
  destruct s as [|c s]; cbn; [done|]. case_decide; [done|].
  by destruct (split_space s).
Qed.

Lemma split_space_join s :
  join_space (split_space s) = s ∧ Forall (λ p, spaceless p = true) (split_space s).
Proof.
  induction s as [|c s [IHj IHf]]; cbn; [by repeat constructor|].
  pose proof (split_space_nonempty s) as Hne.
  destruct (split_space s) as [|p ps]; [done|]. case_decide as Hc.
  - subst c. split; [|by constructor]. cbn in *. by rewrite IHj.
  - apply Forall_cons in IHf as [Hp Hps]. split.
    + destruct ps as [|p' ps]; cbn in *; [by rewrite IHj|].
      by rewrite append_cons, IHj.
    + constructor; [|done]. cbn. by rewrite bool_decide_eq_false_2, Hp.
Qed.

Lemma split_space_app a b :
  spaceless a = true → split_space (a +:+ String space b) = a :: split_space b.
Proof.
  induction a as [|c a IH]; intros Ha.
  - rewrite append_nil_l. cbn. by rewrite decide_True.
  - cbn in Ha. apply andb_true_iff in Ha as [Hc Ha].
    apply negb_true_iff, bool_decide_eq_false in Hc.
    rewrite append_cons. cbn. rewrite decide_False by done. by rewrite IH.
Qed.

Lemma split_space_spaceless s : spaceless s = true → split_space s = [s].
Proof.
  induction s as [|c s IH]; [done|]. cbn. intros [Hc Hs]%andb_true_iff.
  apply negb_true_iff, bool_decide_eq_false in Hc.
  rewrite decide_False by done. by rewrite IH.
Qed.

(** X9.  [extractToken] returns a token exactly for the headers
    [Bearer <token>] whose token has no space, and the token it returns is
    the one of the header; every other header (absent, empty, another
    scheme, a second space anywhere) makes it throw. *)
Theorem extractToken_accepts_iff h t :
  extractToken h = inr t ↔ h = Some ("Bearer " +:+ t) ∧ spaceless t = true.
Proof.
  split.
  - destruct h as [s|]; cbn; [|done]. case_decide as Hs; [done|].
    destruct (split_space_join s) as [Hj Hf].
    destruct (split_space s) as [|p0 [|p1 [|? ?]]]; cbn; try done.
    destruct (decide (p0 = "Bearer")) as [->|Hp].
    2:{ rewrite (bool_decide_eq_true_2 (Some p0 ≠ Some "Bearer")) by congruence.
        by rewrite orb_true_r. }
    intros Heq. cbn in Heq. injection Heq as <-.
    apply Forall_cons in Hf as [_ [Hp1 _]%Forall_cons]. split; [|done].
    f_equal. cbn in Hj. by rewrite <-Hj.
  - intros [-> Ht]. cbn.
    change ("Bearer " +:+ t) with ("Bearer" +:+ String space t).
    rewrite split_space_app by done. rewrite split_space_spaceless by done.
    cbn. rewrite decide_False; [|done]. by rewrite bool_decide_eq_false_2 by (by intros ?).
Qed.

(** X10.  [checkSpaceId] lets a request through exactly when [space_id] is
    a string that contains, anywhere, a [!] followed by at least one
    character, a [:] and at least one character, none of them a line
    terminator.  The expression is not anchored: text before the [!] and
    after the match is accepted, line terminators included. *)
Theorem checkSpaceId_accepts_iff q :
  checkSpaceId q = inr () ↔
  ∃ pre x y post,
    q = QString (pre +:+ ("!" +:+ x +:+ ":" +:+ y) +:+ post)
    ∧ x ≠ "" ∧ y ≠ "" ∧ dotted x = true ∧ dotted y = true.
Proof.
  split.
  - destruct q as [s|?]; cbn; [|done].
    destruct (exec ROOM_ID_VALIDATOR s) eqn:He; cbn; [|done].
    intros _. apply exec_spec in He as (pre & m & post & -> & Hm).
    apply ROOM_ID_VALIDATOR_matches in Hm as (x & y & -> & ?). by exists pre, x, y, post.
  - intros (pre & x & y & post & -> & Hx & Hy & Hdx & Hdy). cbn.
    rewrite (proj2 (exec_spec _ _)).
    2:{ eexists pre, _, post. split; [done|].
        apply ROOM_ID_VALIDATOR_matches. by exists x, y. }
    cbn. case_decide as He; [|done].
    apply append_eq_nil in He as [_ He]. apply append_eq_nil in He as [He _].
    done.
Qed.

(** X11.  [checkSpaceId] never throws "space_id must be provided": the
    empty string is already rejected as "Invalid spaceId" by the test
    before it, so a request is either let through or rejected with that
    message. *)
Theorem checkSpaceId_never_reports_missing q :
  checkSpaceId q = inr () ∨ checkSpaceId q = inl "Invalid spaceId".
Proof.
  destruct q as [s|?]; cbn; [|by right].
  destruct (exec ROOM_ID_VALIDATOR s) eqn:He; cbn; [|by right].
  case_decide as Hs; [|by left]. subst. done.
Qed.

End Middleware.

(** ** checkAuth *)

Section CheckAuth.
Import Middleware.

(** X12.  A user whom the power levels of the space do not list passes
    [checkAuth]: with a well-formed header, a token the homeserver knows
    and a power-level event that has no entry for the user (or no [users]
    object), [next] is called, since [undefined < 90] is false. *)
Theorem checkAuth_unlisted_user_passes hs h q token uid ev :
  extractToken h = inr token →
  getWhoAmI hs token = inr uid →
  getRoomStateEvent hs token q = inr (Some ev) →
  (∀ m, users ev = Some m → m !! uid = None) →
  checkAuth hs h q = Next.
Proof.
  intros Ht Hw He Hu. unfold checkAuth, below_admin. rewrite Ht, Hw, He.
  destruct (users ev) as [m|]; [|done]. by rewrite (Hu m).
Qed.

Lemma checkAuth_unlisted_user_passes_witness :
  checkAuth hs_unlisted (Some "Bearer syt_token") (QString s1) = Next.
Proof.
  apply (checkAuth_unlisted_user_passes hs_unlisted (Some "Bearer syt_token")
           (QString s1) "syt_token" admin
           (mkPowerLevels (Some {["@other:example.org" := 100]})));
    [reflexivity|reflexivity|reflexivity|].
  intros m [= <-]. by apply lookup_singleton_ne.
Defined.

(** X13.  [checkAuth] answers 401 exactly when the header is well formed
    and [getWhoAmI] is rejected, and the error it sends is the message of
    that rejection; nothing the power-level lookup does leads to a 401. *)
Theorem checkAuth_answers_401_only_when_whoami_fails hs h q msg :
  checkAuth hs h q = Send401 msg ↔
  ∃ token, extractToken h = inr token ∧ getWhoAmI hs token = inl msg.
Proof.
  unfold checkAuth. split.
  - destruct (extractToken h) as [?|token]; [done|].
    destruct (getWhoAmI hs token) as [e|uid] eqn:Hw.
    + intros [= ->]. by exists token.
    + destruct (getRoomStateEvent hs token q) as [?|[ev|]]; try done.
      by destruct (below_admin ev uid).
  - intros (token & -> & ->). done.
Qed.

(** X14.  A user listed with a power level below 90 is not let through,
    and is not answered either: the ApiError is thrown inside the promise of
    [getRoomStateEvent], which [checkAuth] neither returns nor catches, so
    neither [next] nor the 401 of the [catch] is reached. *)
Theorem checkAuth_low_power_is_left_unanswered hs h q token uid ev level m :
  extractToken h = inr token → getWhoAmI hs token = inr uid →
  getRoomStateEvent hs token q = inr (Some ev) →
  users ev = Some m → m !! uid = Some level → level < 90 →
  checkAuth hs h q = Unhandled "Unauthorized".
Proof.
  intros Ht Hw He Hu Hl Hlt.
  unfold checkAuth, below_admin. rewrite Ht, Hw, He, Hu, Hl.
  by rewrite bool_decide_eq_true_2.
Qed.

Lemma checkAuth_low_power_is_left_unanswered_witness :
  checkAuth hs_low (Some "Bearer syt_token") (QString s1) = Unhandled "Unauthorized".
Proof.
  apply (checkAuth_low_power_is_left_unanswered hs_low (Some "Bearer syt_token")
           (QString s1) "syt_token" admin (mkPowerLevels (Some {[admin := 50]}))
           50 {[admin := 50]});
    [reflexivity|reflexivity|reflexivity|reflexivity|apply lookup_singleton_eq|lia].
Defined.

End CheckAuth.

(** * Connections/MqttConnection.ts *)

Section Connection.
Import Connection.

Lemma truthy_true s : truthy s = true ↔ s ≠ "".
Proof. unfold truthy. apply bool_decide_eq_true. Qed.

(** What a state that [validateState] returns is made of. *)
Lemma validateState_inr data c :
  validateState data = inr c →
  ∃ b cid u p,
    data !! "broker" = Some b ∧ data !! "client_id" = Some cid
    ∧ data !! "username" = Some u ∧ data !! "password" = Some p
    ∧ b ≠ "" ∧ cid ≠ "" ∧ u ≠ "" ∧ p ≠ ""
    ∧ c = mkMqttConnection b cid u (Some p) None.
Proof.
  unfold validateState, field.
  - destruct (data !! "broker") as [b|], (data !! "client_id") as [cid|],
      (data !! "username") as [u|], (data !! "password") as [p|]; cbn;
      rewrite ?orb_true_r; try done.
    destruct (truthy b) eqn:Hb, (truthy cid) eqn:Hc, (truthy u) eqn:Hu,
      (truthy p) eqn:Hp; cbn; try done.
    intros [= <-]. apply truthy_true in Hb, Hc, Hu, Hp.
    by exists b, cid, u, p.
Qed.

(** X15.  [validateState] returns a state exactly when the data has the
    four keys broker, client_id, username and password with non-empty
    values; the state it returns holds those four values (the client id
    under [clientId]) and no spaces.  Any other data makes it throw. *)
Theorem validateState_accepts_iff data c :
  validateState data = inr c ↔
  ∃ b cid u p,
    data !! "broker" = Some b ∧ data !! "client_id" = Some cid
    ∧ data !! "username" = Some u ∧ data !! "password" = Some p
    ∧ b ≠ "" ∧ cid ≠ "" ∧ u ≠ "" ∧ p ≠ ""
    ∧ c = mkMqttConnection b cid u (Some p) None.
Proof.
  split; [apply validateState_inr|].
  intros (b & cid & u & p & Hb' & Hc' & Hu' & Hp' & Hb & Hc & Hu & Hp & ->).
  unfold validateState, field. rewrite Hb', Hc', Hu', Hp'. cbn.
  apply truthy_true in Hb, Hc, Hu, Hp. by rewrite Hb, Hc, Hu, Hp.
Qed.



Lemma read_row_exists (t : Table) b u c :
  one_row select_row (SelectConnection t b u) = Some c → Exists (has_key b u) t.
Proof.
  intros (x & Hsel & _)%one_row_Some.
  destruct (select_has_key t b u x) as [Hk Hin]; [rewrite Hsel; by left|].
  apply Exists_exists. by exists x.
Qed.

Lemma exists_after_update (f : Row → Row) (t : Table) b u :
  (∀ r, key_of (f r) = key_of r) → Exists (has_key b u) t →
  Exists (has_key b u) (f <$> t).
Proof.
  intros Hf (x & Hin & Hk)%Exists_exists. apply Exists_fmap, Exists_exists.
  exists x. split; [done|]. apply has_key_key_of. rewrite Hf.
  by apply has_key_key_of.
Qed.

Lemma exists_after_insert now (t : Table) b cid u pw ids :
  Exists (has_key b u) (InsertConnection now t b cid u pw ids).2.
Proof.
  destruct (decide (Exists (has_key b u) t)).
  - by rewrite InsertConnection_conflict.
  - rewrite InsertConnection_fresh by done. cbn. apply Exists_app. right. by left.
Qed.

Lemma create_success_row_exists E a c tok s w w' :
  run E (Provisioner.createMqttConnection a c tok s) w = (inr ok, w') →
  Exists (has_key (broker c) (username c)) (db w').
Proof.
  intros Hrun. unfold_program Hrun. run_cases;
    try (match goal with
         | H : InsertConnection ?n ?t ?b ?cid ?u ?pw ?ids = _ |- _ =>
             pose proof (exists_after_insert n t b cid u pw ids) as Hex;
             by rewrite H in Hex
         end);
    try (by eapply read_row_exists);
    apply exists_after_update;
    [intros r0; by destruct (decide (has_key _ _ r0))|by eapply read_row_exists].
Qed.

(** [createMqttConnection] returns an answer, and an answer with status
    200 is [{ status: 200, ok: true }]. *)
Lemma createMqttConnection_answers E a c tok s w :
  ∃ resp w', run E (Provisioner.createMqttConnection a c tok s) w = (inr resp, w')
    ∧ (status resp = 200 → resp = ok).
Proof.
  destruct (run E (Provisioner.createMqttConnection a c tok s) w) as [r w'] eqn:Hrun.
  unfold_program Hrun; run_cases; eexists _, _; (split; [reflexivity|]); cbn;
    intros; try done.
  all: exfalso; eapply rejected_status; eauto.
Qed.

(** X17.  When [provisionConnection] returns a connection, the data
    validated, the manager's [createMqttConnection] for the room answered
    200 with [{ ok: true }], a row of the identity is in the table, and the
    connection returned keeps broker, client id and username of the data but
    not the password. *)
Theorem provisionConnection_success_hides_password E room data tok mqtt uuid w conn w' :
  run E (provisionConnection room data tok mqtt uuid) w = (inr (inr conn), w') →
  ∃ address v,
    mqtt = Some address ∧ validateState data = inr v
    ∧ conn = mkConnection room
               (mkMqttConnection (broker v) (clientId v) (username v) None None)
               uuid address tok
    ∧ run E (Provisioner.createMqttConnection address v tok room) w = (inr ok, w')
    ∧ Exists (has_key (broker v) (username v)) (db w').
Proof.
  unfold provisionConnection. intros Hrun.
  destruct mqtt as [address|]; [|done].
  destruct (validateState data) as [?|v]; [done|].
  unfold mbind, Prog_bind in Hrun. rewrite run_bind in Hrun.
  destruct (createMqttConnection_answers E address v tok room w)
    as (resp & w1 & Hcreate & Hst).
  rewrite Hcreate in Hrun.
  case_bool_decide as Hs; cbn in Hrun; [done|]. simplify_eq.
  rewrite (Hst Hs) in Hcreate.
  exists address, v. split_and!; try done.
  by eapply create_success_row_exists.
Qed.

Lemma provisionConnection_success_hides_password_witness :
  ∃ address v,
    Some mqttas = Some address ∧ validateState data1 = inr v
    ∧ mkConnection s1 (mkMqttConnection "b1" "c1" "u1" None None) "hook-1" mqttas token
      = mkConnection s1
          (mkMqttConnection (broker v) (clientId v) (username v) None None)
          "hook-1" address token
    ∧ run always_ok (Provisioner.createMqttConnection address v token s1) empty_world
      = (inr ok, mkWorld [row1 [s1]] [post_request s1 conn1 (Some token)])
    ∧ Exists (has_key (broker v) (username v)) [row1 [s1]].
Proof.
  apply (provisionConnection_success_hides_password always_ok s1 data1 token
           (Some mqttas) "hook-1" empty_world
           (mkConnection s1 (mkMqttConnection "b1" "c1" "u1" None None)
              "hook-1" mqttas token)
           (mkWorld [row1 [s1]] [post_request s1 conn1 (Some token)])).
  vm_compute. reflexivity.
Defined.


Lemma update_absent (f : Row → Row) (t : Table) b u :
  ¬ Exists (has_key b u) t →
  (λ r, if decide (has_key b u r) then f r else r) <$> t = t.
Proof.
  intros H. apply fmap_id_on. intros x Hx. rewrite decide_False; [done|].
  intros Hk. apply H, Exists_exists. by exists x.
Qed.

Lemma array_remove_single x : array_remove [x] x = [].
Proof. unfold array_remove. by rewrite filter_cons, decide_False by (intros H; by apply H). Qed.

(** X19.  With an orchestrator that answers 200 and no row for the
    identity, [provisionConnection] followed by [onRemove] of the connection
    it returns succeeds twice, with one POST and one DELETE; the row
    inserted for the room stays in the table, with its credentials and an
    empty list of spaces. *)
Theorem provision_then_remove E room data tok address uuid w v :
  (∀ h req, orch E h req = Answer 200) →
  validateState data = inr v →
  ¬ Exists (has_key (broker v) (username v)) (db w) →
  ∃ conn p w1 w2 req1 req2,
    password v = Some p
    ∧ run E (provisionConnection room data tok (Some address) uuid) w
      = (inr (inr conn), w1)
    ∧ run E (onRemove conn) w1 = (inr (inr ()), w2)
    ∧ db w1 = db w ++ [mkRow (broker v) (clientId v) (username v) p [room] (now E)]
    ∧ db w2 = db w ++ [mkRow (broker v) (clientId v) (username v) p [] (now E)]
    ∧ calls w2 = calls w ++ [req1; req2]
    ∧ method req1 = POST ∧ method req2 = DELETE.
Proof.
  intros Hok Hv Hno.
  pose proof (validateState_inr _ _ Hv)
    as (b & cid & u & p & _ & _ & _ & _ & Hb & Hc & Hu & Hp & ->).
  cbn in Hno.
  set (row := λ ids, mkRow b cid u p ids (now E)).
  assert (∀ ids, SelectConnection (db w ++ [row ids]) b u = [row ids]) as Hsel.
  { intros ids. rewrite select_app, select_absent by done.
    unfold SelectConnection. by rewrite filter_cons, decide_True by done. }
  unfold provisionConnection. rewrite Hv.
  unfold mbind, Prog_bind. rewrite run_bind.
  unfold Provisioner.createMqttConnection. cbn_run.
  rewrite select_absent by done. cbn_run. answered_200 Hok.
  rewrite InsertConnection_fresh by done. cbn_run.
  eexists _, p, _, _, _, _. split; [done|]. split; [reflexivity|].
  unfold onRemove, mbind, Prog_bind. rewrite run_bind.
  unfold Provisioner.deleteMqttConnection, truthy. cbn_run.
  rewrite !bool_decide_eq_true_2 by done. cbn_run.
  fold (row [room]). rewrite Hsel. cbn_run.
  rewrite bool_decide_eq_true_2 by (by left). cbn_run. answered_200 Hok.
  split; [reflexivity|]. cbn -[array_remove]. split; [done|]. split.
  - rewrite prune_deletes_nothing, fmap_app, update_absent by done.
    cbn -[array_remove]. rewrite decide_True by done. unfold set_space_ids.
    cbn -[array_remove]. by rewrite array_remove_single.
  - rewrite <-app_assoc. done.
Qed.

Lemma provision_then_remove_witness :
  ∃ conn p w1 w2 req1 req2,
    password conn1 = Some p
    ∧ run always_ok (provisionConnection s1 data1 token (Some mqttas) "hook-1")
        empty_world
      = (inr (inr conn), w1)
    ∧ run always_ok (onRemove conn) w1 = (inr (inr ()), w2)
    ∧ db w1 = db empty_world ++ [mkRow "b1" "c1" "u1" p [s1] (now always_ok)]
    ∧ db w2 = db empty_world ++ [mkRow "b1" "c1" "u1" p [] (now always_ok)]
    ∧ calls w2 = calls empty_world ++ [req1; req2]
    ∧ method req1 = POST ∧ method req2 = DELETE.
Proof.
  apply (provision_then_remove always_ok s1 data1 token mqttas "hook-1"
           empty_world conn1);
    [reflexivity|vm_compute; reflexivity|by intros ?%Exists_nil].
Defined.

End Connection.

(** * The route of the orchestrator *)

Section LiveRoute.
Import LiveRoute.

(** X20.  [GET /liveConnections] discloses the rows, passwords included,
    only to a request whose Authorization header is [Bearer] followed by the
    provisioning secret; when it answers, the answer is 200 with every row
    and the world is as before. *)
Theorem liveConnections_requires_the_secret E secret authorization w resp w' :
  run E (liveConnections secret authorization) w = (inr (inr resp), w') →
  authorization = Some ("Bearer " +:+ secret)
  ∧ w' = w
  ∧ resp = mkResponse 200 (LiveConnections (adapted <$> db w)).
Proof.
  unfold liveConnections, checkAuth. case_decide as Ha; [|done].
  cbn. by intros [= <- <-].
Qed.

Lemma liveConnections_requires_the_secret_witness :
  Some ("Bearer " +:+ secret) = Some ("Bearer " +:+ secret)
  ∧ world_of [row1 [s1]] = world_of [row1 [s1]]
  ∧ mkResponse 200 (LiveConnections [mkLive "b1" "c1" "u1" "p1" [s1]])
    = mkResponse 200 (LiveConnections (adapted <$> db (world_of [row1 [s1]]))).
Proof.
  apply (liveConnections_requires_the_secret always_ok secret
           (Some ("Bearer " +:+ secret)) (world_of [row1 [s1]])
           (mkResponse 200 (LiveConnections [mkLive "b1" "c1" "u1" "p1" [s1]]))
           (world_of [row1 [s1]])).
  reflexivity.
Defined.




End LiveRoute.
